(** * The outage query service of [server.js]: record normaliser,
      outage filter and the [GET /api/outages] handler.

    JavaScript strings are modelled as [string]: every [ascii] stands for
    one code unit in the range 0..255 (Latin-1, which is closed under
    [toLowerCase]).  JavaScript values are the primitives a JSON reply can
    carry, plus [undefined]; numbers are the integer-valued ones. *)

From Stdlib Require Import ZArith NArith Ascii String.
From stdpp Require Import base tactics option list gmap strings.

Local Open Scope N_scope.

(** ** Code units and character classes *)

Definition code (c : ascii) : N := N_of_ascii c.

Definition in_range (lo hi : N) (c : ascii) : bool :=
  (lo <=? code c) && (code c <=? hi).

Definition is_code (n : N) (c : ascii) : bool := code c =? n.

(** [[A-Z]], [\d] and the word characters of [\b]. *)
Definition is_upper (c : ascii) : bool := in_range 65 90 c.
Definition is_lower (c : ascii) : bool := in_range 97 122 c.
Definition is_digit (c : ascii) : bool := in_range 48 57 c.
Definition is_word (c : ascii) : bool :=
  is_upper c || is_lower c || is_digit c || is_code 95 c.

(** Line terminators (what [.] refuses): LF and CR. *)
Definition is_line_terminator (c : ascii) : bool :=
  is_code 10 c || is_code 13 c.

(** White space of [\s] and of [trim]: TAB, LF, VT, FF, CR, SP, NBSP. *)
Definition is_space (c : ascii) : bool :=
  in_range 9 13 c || is_code 32 c || is_code 160 c.

(** [String.prototype.toLowerCase] on one code unit. *)
Definition lower_char (c : ascii) : ascii :=
  if in_range 65 90 c || (in_range 192 222 c && negb (is_code 215 c))
  then ascii_of_N (code c + 32) else c.

(** Canonicalisation of the [i] flag: the upper-case mapping when it is
    one code unit, except that a unit of 128 or more never folds below
    128.  The micro sign and y-diaeresis fold outside Latin-1. *)
Definition canonicalize (c : ascii) : N :=
  if in_range 97 122 c || (in_range 224 254 c && negb (is_code 247 c))
  then code c - 32
  else if is_code 181 c then 924
  else if is_code 255 c then 376
  else code c.

Definition lit (c : ascii) : ascii → bool := fun x => Ascii.eqb x c.
Definition lit_i (c : ascii) : ascii → bool :=
  fun x => canonicalize x =? canonicalize c.
Definition dot (c : ascii) : bool := negb (is_line_terminator c).

Local Close Scope N_scope.

(** ** Strings *)

Definition LF : string := String "010" "".
Definition CR : string := String "013" "".

Fixpoint take_str (n : nat) (s : string) : string :=
  match n, s with
  | S n', String c s' => String c (take_str n' s')
  | _, _ => ""
  end.

Fixpoint all_str (p : ascii → bool) (s : string) : bool :=
  match s with
  | "" => true
  | String c s' => p c && all_str p s'
  end.

Fixpoint map_str (f : ascii → ascii) (s : string) : string :=
  match s with
  | "" => ""
  | String c s' => String (f c) (map_str f s')
  end.

Definition is_empty (s : string) : bool :=
  match s with "" => true | _ => false end.

(** [s.toLowerCase()] *)
Definition toLowerCase (s : string) : string := map_str lower_char s.

(** [s.trim()]: white space removed at both ends. *)
Fixpoint trimStart (s : string) : string :=
  match s with
  | String c s' => if is_space c then trimStart s' else s
  | "" => ""
  end.

Fixpoint trimEnd (s : string) : string :=
  match s with
  | String c s' =>
      let r := trimEnd s' in
      if is_space c && is_empty r then "" else String c r
  | "" => ""
  end.

Definition trim (s : string) : string := trimEnd (trimStart s).

(** [s.split("\n")] *)
Fixpoint split_lf (s : string) : list string :=
  match s with
  | "" => [""]
  | String c s' =>
      if is_code 10 c then "" :: split_lf s'
      else match split_lf s' with
           | l :: ls => String c l :: ls
           | [] => [String c ""]
           end
  end.

(** [lines.join("\n")] *)
Fixpoint join_lf (ls : list string) : string :=
  match ls with
  | [] => ""
  | [l] => l
  | l :: ls' => l +:+ LF +:+ join_lf ls'
  end.

(** [s.includes(t)] *)
Fixpoint starts_with (t s : string) : bool :=
  match t, s with
  | "", _ => true
  | String a t', String b s' => Ascii.eqb a b && starts_with t' s'
  | String _ _, "" => false
  end.

Fixpoint includes (s t : string) : bool :=
  starts_with t s ||
  match s with
  | "" => false
  | String _ s' => includes s' t
  end.

(** ** Regular expressions

    The fragment of the regular-expression language the source uses, with
    a backtracking matcher in continuation style.  A cursor is the
    remaining input together with the code unit just before it, which the
    word-boundary assertion looks at. *)

Inductive regex : Type :=
| Chr (p : ascii → bool)          (* one code unit of a class *)
| Cat (r1 r2 : regex)             (* r1 r2 *)
| Star (p : ascii → bool)         (* c*   greedy *)
| StarLazy (p : ascii → bool)     (* c*?  lazy *)
| Opt (r : regex)                 (* r?   greedy *)
| WordB.                          (* \b *)

Fixpoint Rep (n : nat) (p : ascii → bool) (r : regex) : regex :=
  match n with
  | O => r
  | S n' => Cat (Chr p) (Rep n' p r)
  end.

Definition cursor : Type := option ascii * string.

Definition or_else {A} (x y : option A) : option A :=
  match x with Some _ => x | None => y end.

Fixpoint star_greedy (p : ascii → bool) (k : cursor → option cursor)
    (prev : option ascii) (s : string) : option cursor :=
  match s with
  | String c s' =>
      if p c then or_else (star_greedy p k (Some c) s') (k (prev, s))
      else k (prev, s)
  | "" => k (prev, s)
  end.

Fixpoint star_lazy (p : ascii → bool) (k : cursor → option cursor)
    (prev : option ascii) (s : string) : option cursor :=
  or_else (k (prev, s))
    match s with
    | String c s' => if p c then star_lazy p k (Some c) s' else None
    | "" => None
    end.

Definition word_before (x : cursor) : bool :=
  match x.1 with Some c => is_word c | None => false end.
Definition word_after (x : cursor) : bool :=
  match x.2 with String c _ => is_word c | "" => false end.

Fixpoint rmatch (r : regex) (k : cursor → option cursor) (x : cursor)
    : option cursor :=
  match r with
  | Chr p =>
      match x.2 with
      | String c s' => if p c then k (Some c, s') else None
      | "" => None
      end
  | Cat r1 r2 => rmatch r1 (rmatch r2 k) x
  | Star p => star_greedy p k x.1 x.2
  | StarLazy p => star_lazy p k x.1 x.2
  | Opt r' => or_else (rmatch r' k x) (k x)
  | WordB => if xorb (word_before x) (word_after x) then k x else None
  end.

(** One match attempt at the cursor: the cursor after the match. *)
Definition exec (r : regex) (x : cursor) : option cursor := rmatch r Some x.

(** [s.match(r)] for a regex without the [g] flag: the text of the
    leftmost match, [None] for JavaScript's [null]. *)
Fixpoint search (r : regex) (prev : option ascii) (s : string)
    : option string :=
  match exec r (prev, s) with
  | Some (_, rest) => Some (take_str (String.length s - String.length rest) s)
  | None =>
      match s with
      | String c s' => search r (Some c) s'
      | "" => None
      end
  end.

(** [s.replace(r, repl)] for a regex with the [g] flag: matches are
    looked for from left to right, each search resuming where the last
    match ended (one unit further after an empty match). *)
Fixpoint replace_from (fuel : nat) (r : regex) (repl : string)
    (prev : option ascii) (s : string) : string :=
  match fuel with
  | O => s
  | S fuel' =>
      let skip :=
        match s with
        | String c s' => String c (replace_from fuel' r repl (Some c) s')
        | "" => ""
        end in
      match exec r (prev, s) with
      | Some (prev', rest) =>
          if String.length rest <? String.length s
          then repl +:+ replace_from fuel' r repl prev' rest
          else repl +:+ skip
      | None => skip
      end
  end.

Definition replace_all (r : regex) (repl : string) (s : string) : string :=
  replace_from (S (String.length s)) r repl None s.

(** ** The regular expressions of [server.js] *)

(** [/<br\s*\/?>/gi] *)
Definition br_re : regex :=
  Cat (Chr (lit_i "<")) (Cat (Chr (lit_i "b")) (Cat (Chr (lit_i "r"))
    (Cat (Star is_space) (Cat (Opt (Chr (lit_i "/"))) (Chr (lit_i ">")))))).

(** [/<\/div\s*>/gi] *)
Definition div_re : regex :=
  Cat (Chr (lit_i "<")) (Cat (Chr (lit_i "/")) (Cat (Chr (lit_i "d"))
    (Cat (Chr (lit_i "i")) (Cat (Chr (lit_i "v"))
      (Cat (Star is_space) (Chr (lit_i ">"))))))).

(** [/<.*?>/g] *)
Definition tag_re : regex :=
  Cat (Chr (lit "<")) (Cat (StarLazy dot) (Chr (lit ">"))).

(** [/\b[A-Z]{3}\d{8}\b/] *)
Definition ref_re : regex :=
  Cat WordB (Rep 3 is_upper (Rep 8 is_digit WordB)).

(** ** JavaScript values and completions *)

Inductive jsval : Type :=
| JUndefined
| JNull
| JBool (b : bool)
| JNum (n : Z)
| JStr (s : string).

Global Instance jsval_eq_dec : EqDecision jsval.
Proof. solve_decision. Defined.

(** [ToBoolean] *)
Definition truthy (v : jsval) : bool :=
  match v with
  | JUndefined | JNull => false
  | JBool b => b
  | JNum n => negb (n =? 0)%Z
  | JStr s => negb (is_empty s)
  end.

(** [a || b] *)
Definition js_or (a b : jsval) : jsval := if truthy a then a else b.

(** [a === b] *)
Definition strict_eq (a b : jsval) : bool := bool_decide (a = b).

(** A call either returns or throws; a thrown error is kept as its
    [message]. *)
Inductive completion (A : Type) : Type :=
| Normal (a : A)
| Throw (message : string).
Global Arguments Normal {A} a.
Global Arguments Throw {A} message.

Definition bind {A B} (m : completion A) (f : A → completion B)
    : completion B :=
  match m with
  | Normal a => f a
  | Throw e => Throw e
  end.

Notation "x <- m ;; k" := (bind m (fun x => k))
  (at level 100, m at next level, right associativity).

Fixpoint array_map {A B} (f : A → completion B) (l : list A)
    : completion (list B) :=
  match l with
  | [] => Normal []
  | a :: l' => b <- f a ;; bs <- array_map f l' ;; Normal (b :: bs)
  end.

Fixpoint array_filter {A} (p : A → completion bool) (l : list A)
    : completion (list A) :=
  match l with
  | [] => Normal []
  | a :: l' =>
      keep <- p a ;; rest <- array_filter p l' ;;
      Normal (if keep then a :: rest else rest)
  end.

(** A method of [String.prototype] called on a value: values that are
    not strings have no such method, and the call throws a [TypeError]. *)
Definition as_string (what : string) (v : jsval) : completion string :=
  match v with
  | JStr s => Normal s
  | _ => Throw (what +:+ " is not a function")
  end.

(** ** Helpers of [server.js] *)

Definition stripHtml (html : jsval) : completion string :=
  if negb (truthy html) then Normal ""
  else
    h <- as_string "html.replace" html ;;
    let text := replace_all br_re LF h in
    let text := replace_all div_re LF text in
    let text := replace_all tag_re "" text in
    Normal (join_lf (filter (λ l, l ≠ "") (trim <$> split_lf text))).

Definition extractReference (description : jsval) : completion jsval :=
  if negb (truthy description) then Normal JNull
  else
    d <- as_string "description.match" description ;;
    Normal match search ref_re None d with
           | Some m => JStr m
           | None => JNull
           end.

(** A raw record: the object the upstream service sends for one outage. *)
Abbreviation raw := (gmap string jsval).

(** [props.KEY]: a missing key reads as [undefined]. *)
Definition get (props : raw) (key : string) : jsval :=
  default JUndefined (props !! key).

Record outage : Type := {
  objectid : jsval;
  globalid : jsval;
  title : jsval;
  status : jsval;
  location : jsval;
  county : jsval;
  startdate_epoch : jsval;
  enddate_epoch : jsval;
  startdate_human : jsval;
  enddate_human : jsval;
  reference : jsval;
  description : jsval;
}.

Section Service.

(** The two pieces of the JavaScript runtime the service relies on: the
    time value [new Date(s)] parses from a string ([None] when it is
    [NaN]), and the [en-IE] rendering of a time value in the
    [Europe/Dublin] zone. *)
Variable Date_parse : string → option Z.
Variable toLocaleString : Z → string.

(** [new Date(v).getTime()], [None] for [NaN]. *)
Definition Date_time (v : jsval) : option Z :=
  match v with
  | JUndefined => None
  | JNull => Some 0%Z
  | JBool b => Some (if b then 1 else 0)%Z
  | JNum n => if (Z.abs n <=? 8640000000000000)%Z then Some n else None
  | JStr s => Date_parse s
  end.

Definition formatDate (epoch : jsval) : jsval :=
  if negb (truthy epoch) && negb (strict_eq epoch (JNum 0)) then JNull
  else match Date_time epoch with
       | None => JNull
       | Some t => JStr (toLocaleString t)
       end.

Definition normalizeOutage (props : raw) : completion outage :=
  let rawDesc := js_or (get props "DESCRIPTION") (JStr "") in
  plainDesc <- stripHtml rawDesc ;;
  ref <-
    (if truthy (get props "REFERENCENUM")
     then Normal (get props "REFERENCENUM")
     else extractReference (JStr plainDesc)) ;;
  Normal {|
    objectid := get props "OBJECTID";
    globalid := get props "GLOBALID";
    title := js_or (get props "TITLE") (JStr "");
    status := js_or (get props "STATUS") (JStr "");
    location := js_or (get props "LOCATION") (JStr "");
    county := js_or (get props "COUNTY") (JStr "");
    startdate_epoch := js_or (get props "STARTDATE") JNull;
    enddate_epoch := js_or (get props "ENDDATE") JNull;
    startdate_human := formatDate (get props "STARTDATE");
    enddate_human := formatDate (get props "ENDDATE");
    reference := ref;
    description := JStr plainDesc
  |}.

(** ** The route [GET /api/outages] *)

Definition BASE_URL : string :=
  "https://services2.arcgis.com/OqejhVam51LdtxGa/arcgis/rest/services/WaterAdvisoryCR021_DeptView/FeatureServer/0/query".

(** A value of [req.query].  The query parser gives a string for a
    parameter that occurs once, and an array or an object for a repeated
    or bracketed one.  Of such an array or object the handler only uses
    that it is truthy, that it has no [trim] method, and its conversion
    to a string in the template literal, which gives [text] or throws. *)
Inductive qval : Type :=
| QStr (s : string)
| QOther (text : completion string).

(** [req.query]: a parameter that does not occur is [None]. *)
Record request : Type := {
  q_county : option qval;
  q_refnum : option qval;
  q_location : option qval;
}.

Record params : Type := {
  f : string;
  where_ : string;
  outFields : string;
  returnGeometry : string;
  returnIdsOnly : string;
  orderByFields : string;
  outSR : string;
}.

(** An object among [data.features]; [None] is a missing (or falsy)
    member.  A member that is truthy without being an object has none of
    the keys the normaliser reads and stands here as the empty record; an
    element that is no object at all (a number, a string) has neither
    member. *)
Record feature : Type := {
  properties : option raw;
  attributes : option raw;
}.

(** An element of [data.features]: an object, or [null]. *)
Abbreviation element := (option feature).

Inductive body : Type :=
| ErrorBody (error : string) (details : option string)
| OutagesBody (county : option qval) (refnum locationFilter : jsval)
    (count : nat) (outages : list outage).

Record response : Type := {
  status_code : nat;
  json : body;
}.

(** What the handler does to the outside world, in order. *)
Inductive effect : Type :=
| AxiosGet (url : string) (p : params)
| ConsoleError (args : list string).

(** [f.properties || f.attributes || {}] *)
Definition feature_props (ft : feature) : raw :=
  match properties ft with
  | Some p => p
  | None => default ∅ (attributes ft)
  end.

(** The text of an empty string literal, as error messages show it. *)
Definition QQ : string := String "034" (String "034" "").

(** Reading a member of [null] throws. *)
Definition element_props (e : element) : completion raw :=
  match e with
  | Some ft => Normal (feature_props ft)
  | None => Throw "Cannot read properties of null (reading 'properties')"
  end.

(** [(v || <empty>).trim()] for the parameter [v] named [name]: an
    absent or empty parameter gives way to the empty string, an array or
    an object has no [trim] to call. *)
Definition trimmed (name : string) (v : option qval) : completion string :=
  match v with
  | None => Normal (trim "")
  | Some (QStr s) => Normal (trim s)
  | Some (QOther _) =>
      Throw ("(req.query." +:+ name +:+ " || " +:+ QQ
             +:+ ").trim is not a function")
  end.

(** [!v] for a parameter: an array or an object is truthy. *)
Definition param_truthy (v : option qval) : bool :=
  match v with
  | None => false
  | Some (QStr s) => negb (is_empty s)
  | Some (QOther _) => true
  end.

(** The text a parameter gives in a template literal. *)
Definition param_text (v : option qval) : completion string :=
  match v with
  | None => Normal "undefined"
  | Some (QStr s) => Normal s
  | Some (QOther text) => text
  end.

(** [(req.query.refnum || <empty>).trim() || null] *)
Definition query_refnum (req : request) : completion jsval :=
  t <- trimmed "refnum" (q_refnum req) ;;
  Normal (js_or (JStr t) JNull).

(** [(req.query.location || <empty>).trim().toLowerCase()] *)
Definition query_location (req : request) : completion string :=
  t <- trimmed "location" (q_location req) ;;
  Normal (toLowerCase t).

(** The two filters of the handler (lines 94 to 106). *)
Definition location_matches (locationFilter : string) (o : outage)
    : completion bool :=
  loc <- as_string ("(o.location || " +:+ QQ +:+ ").toLowerCase")
           (js_or (location o) (JStr "")) ;;
  desc <- as_string ("(o.description || " +:+ QQ +:+ ").toLowerCase")
            (js_or (description o) (JStr "")) ;;
  Normal (includes (toLowerCase loc) locationFilter
          || includes (toLowerCase desc) locationFilter).

Definition filterOutages (refnum : jsval) (locationFilter : string)
    (outages : list outage) : completion (list outage) :=
  let outages :=
    if truthy refnum
    then filter (λ o, strict_eq (reference o) refnum = true) outages
    else outages in
  if truthy (JStr locationFilter)
  then array_filter (location_matches locationFilter) outages
  else Normal outages.

(** [axios.get(url, {params})] followed by [response.data]: the array of
    features of the reply ([None] when [data] or [features] is missing
    or falsy), or a thrown error.  The feature layer answers with an
    array whenever it answers with features. *)
Variable axios_get : string → params → completion (option (list element)).

(** The handler is an [async] function.  It either sends a reply, or
    throws before the [try] block, in which case its promise is rejected
    and it has sent nothing. *)
Definition handler (req : request) : list effect * completion response :=
  let county := q_county req in
  match (refnum <- query_refnum req ;;
         locationFilter <- query_location req ;;
         Normal (refnum, locationFilter)) with
  | Throw message => ([], Throw message)
  | Normal (refnum, locationFilter) =>
    if negb (param_truthy county)
    then ([], Normal {|
                status_code := 400;
                json := ErrorBody "Missing required parameter: county" None
              |})
    else
      match param_text county with
      | Throw message => ([], Throw message)
      | Normal county_text =>
        let where_ :=
          "STATUS='Open' AND APPROVALSTATUS='Approved' AND COUNTY='"
            +:+ county_text +:+ "'" in
        let params := {|
          f := "json";
          where_ := where_;
          outFields := "*";
          returnGeometry := "true";
          returnIdsOnly := "false";
          orderByFields := "STARTDATE DESC";
          outSR := "4326"
        |} in
        let attempt :=
          data <- axios_get BASE_URL params ;;
          let features := default [] data in
          outages <- array_map
                       (λ e, props <- element_props e ;;
                             normalizeOutage props)
                       features ;;
          outages <- filterOutages refnum locationFilter outages ;;
          Normal {| status_code := 200;
                    json := OutagesBody county (js_or refnum JNull)
                              (js_or (JStr locationFilter) JNull)
                              (length outages) outages |} in
        match attempt with
        | Normal res => ([AxiosGet BASE_URL params], Normal res)
        | Throw message =>
            ([AxiosGet BASE_URL params;
              ConsoleError ["Error fetching outages:"; message]],
             Normal {|
               status_code := 500;
               json := ErrorBody "Failed to fetch outage data"
                         (Some message)
             |})
        end
      end
  end.

End Service.

(** * Vocabulary of the statements *)

(** ** Strings *)

(** White space at the start, and at the end, of a string. *)
Definition starts_with_space (s : string) : bool :=
  match s with String c _ => is_space c | "" => false end.

Fixpoint ends_with_space (s : string) : bool :=
  match s with
  | "" => false
  | String c "" => is_space c
  | String _ s' => ends_with_space s'
  end.

(** [t] occurs in [s] as a substring. *)
Definition contains (s t : string) : Prop :=
  ∃ pre post, s = pre +:+ t +:+ post.

(** A string without a line feed. *)
Definition no_lf (s : string) : bool := all_str (λ c, negb (is_code 10 c)) s.

(** A line as [stripHtml] leaves it: not empty, without a line feed, and
    with white space at neither end. *)
Definition clean_line (l : string) : Prop :=
  l ≠ "" ∧ no_lf l = true
  ∧ starts_with_space l = false ∧ ends_with_space l = false.

(** ** Values and records *)

(** A value the helpers accept where they expect text: a string, or a
    falsy value (which [|| <empty>] replaces by the empty string). *)
Definition texty (v : jsval) : bool :=
  match v with
  | JStr _ => true
  | _ => negb (truthy v)
  end.

(** The optional fields of a raw record. *)
Definition optional_fields : list string :=
  ["GLOBALID"; "TITLE"; "STATUS"; "LOCATION"; "COUNTY"; "STARTDATE";
   "ENDDATE"; "REFERENCENUM"; "DESCRIPTION"].

(** The string [(v || <empty>)] stands for when [v] is text. *)
Definition text_of (v : jsval) : string :=
  match v with JStr s => s | _ => "" end.

(** An outage whose location and description are text, as the data model
    of a normalised outage has them. *)
Definition textual (o : outage) : Prop :=
  texty (location o) = true ∧ texty (description o) = true.

(** The test of the location filter on a textual outage. *)
Definition location_hit (locationFilter : string) (o : outage) : bool :=
  includes (toLowerCase (text_of (location o))) locationFilter
  || includes (toLowerCase (text_of (description o))) locationFilter.

(** ** The matcher *)

(** The code unit before the cursor once [s] has been read. *)
Fixpoint last_of (prev : option ascii) (s : string) : option ascii :=
  match s with
  | "" => prev
  | String c s' => last_of (Some c) s'
  end.

(** Replacement in the rest of a string, with the unit before it. *)
Definition replace_rest (r : regex) (repl : string) (prev : option ascii)
    (s : string) : string :=
  replace_from (S (String.length s)) r repl prev s.

(** A regex whose every match begins with [<] and is not empty. *)
Definition opens_with_lt (r : regex) : Prop :=
  ∀ prev s y, exec r (prev, s) = Some y →
    (∃ t, s = String "<" t) ∧ String.length y.2 < String.length s.

(** A string without [<]. *)
Definition no_lt (s : string) : bool := all_str (λ c, negb (lit "<" c)) s.

(** The first code unit of [s] is in the class [p]. *)
Definition starts_in (p : ascii → bool) (s : string) : bool :=
  match s with String c _ => p c | "" => false end.

(** [y] is what the continuation [k] answers at some cursor that is not
    before [x]. *)
Definition later_than (x : cursor) (k : cursor → option cursor)
    (y : cursor) : Prop :=
  ∃ x', k x' = Some y ∧ String.length x'.2 ≤ String.length x.2.

(** ** Tags *)








(** ** The stages of [stripHtml], said without the matcher *)





(** ** References *)

(** Three capital letters followed by eight digits. *)
Definition is_reference (m : string) : Prop :=
  ∃ u v, m = u +:+ v
         ∧ String.length u = 3 ∧ all_str is_upper u = true
         ∧ String.length v = 8 ∧ all_str is_digit v = true.

(** [pre] (or, when it is empty, the unit [prev] before it) ends with a
    word character; [post] starts with one. *)
Definition word_end (prev : option ascii) (pre : string) : bool :=
  word_before (last_of prev pre, "").

Definition word_start (post : string) : bool := starts_in is_word post.

(** [m] stands in [d] between [pre] and [post] as a word of its own: no
    word character touches it on either side.  [prev] is the code unit
    before [d], if any. *)
Definition reference_at (prev : option ascii) (d pre m post : string)
    : Prop :=
  d = pre +:+ m +:+ post ∧ is_reference m
  ∧ word_end prev pre = false ∧ word_start post = false.

(** [m] is the leftmost such occurrence in [d]. *)
Definition first_reference_from (prev : option ascii) (d m : string)
    : Prop :=
  ∃ pre post,
    reference_at prev d pre m post
    ∧ ∀ pre' m' post', reference_at prev d pre' m' post' →
        String.length pre ≤ String.length pre'.

Definition first_reference (d m : string) : Prop :=
  first_reference_from None d m.

(** The pattern as the specification words it, without word boundaries:
    [[A-Z]{3}[0-9]{8}]. *)
Definition spec_reference_re : regex :=
  Rep 3 is_upper (Rep 7 is_digit (Chr is_digit)).

(** The reference as the specification derives it. *)
Definition spec_reference (explicit : jsval) (plain : string) : jsval :=
  if truthy explicit then explicit
  else match search spec_reference_re None plain with
       | Some m => JStr m
       | None => JNull
       end.

(** ** The filters *)

(** Passing the reference filter, and passing the location filter. *)
Definition ref_pass (refnum : jsval) (o : outage) : Prop :=
  truthy refnum = false ∨ reference o = refnum.

Definition loc_pass (locationFilter : string) (o : outage) : Prop :=
  locationFilter = "" ∨
  contains (toLowerCase (text_of (location o))) locationFilter ∨
  contains (toLowerCase (text_of (description o))) locationFilter.

(** ** Letter case *)

(** The capital letters of Latin-1: A to Z and the accented capitals. *)
Definition is_capital (c : ascii) : bool :=
  in_range 65 90 c || (in_range 192 222 c && negb (is_code 215 c)).

(** The same letter up to case: the same code unit, or a capital and
    the unit 32 above it. *)
Definition same_letter (a b : ascii) : bool :=
  Ascii.eqb a b
  || (is_capital a && (code b =? code a + 32)%N)
  || (is_capital b && (code a =? code b + 32)%N).

Fixpoint eq_ignoring_case (s t : string) : bool :=
  match s, t with
  | "", "" => true
  | String a s', String b t' => same_letter a b && eq_ignoring_case s' t'
  | _, _ => false
  end.

(** [t] occurs in [s] up to letter case. *)
Definition contains_ignoring_case (s t : string) : Prop :=
  ∃ pre w post, s = pre +:+ w +:+ post ∧ eq_ignoring_case w t = true.

(** ** Query parameters *)

(** A parameter that is absent or a string. *)
Definition textual_param (v : option qval) : Prop :=
  match v with
  | Some (QOther _) => False
  | _ => True
  end.

(** The string of a textual parameter, empty when it is absent. *)
Definition param_string (v : option qval) : string :=
  match v with
  | Some (QStr s) => s
  | _ => ""
  end.

(** ** The handler *)

(** The parsed filters of a request whose parameters are textual. *)
Definition refnum_of (req : request) : jsval :=
  js_or (JStr (trim (param_string (q_refnum req)))) JNull.

Definition location_of (req : request) : string :=
  toLowerCase (trim (param_string (q_location req))).

(** What goes wrong with an element of the upstream reply, if anything:
    the message of the error it makes the handler throw. *)
Definition element_error (e : option feature) : option string :=
  match e with
  | None => Some "Cannot read properties of null (reading 'properties')"
  | Some ft =>
      if texty (get (feature_props ft) "DESCRIPTION") then None
      else Some "html.replace is not a function"
  end.

(** The query the handler sends upstream for a county. *)
Definition query_for (county : string) : params := {|
  f := "json";
  where_ :=
    "STATUS='Open' AND APPROVALSTATUS='Approved' AND COUNTY='"
      +:+ county +:+ "'";
  outFields := "*";
  returnGeometry := "true";
  returnIdsOnly := "false";
  orderByFields := "STARTDATE DESC";
  outSR := "4326"
|}.

(** ** A runtime and an upstream reply to run examples with

    The theorems hold for every runtime; these stand-ins only serve to
    evaluate the service on concrete requests.  No string parses as a
    date, the rendering knows the two instants the examples use, and the
    upstream service always sends the same three features. *)

Definition example_Date_parse (s : string) : option Z := None.

Definition example_toLocaleString (t : Z) : string :=
  if (t =? 0)%Z then "1/1/1970, 01:00:00"
  else if (t =? 1700000000000)%Z then "14/11/2023, 22:13:20"
  else "?".

Definition example_features : list feature := [
  {| properties := None;
     attributes := Some (list_to_map [
       ("OBJECTID", JNum 101);
       ("TITLE", JStr "Burst Water Main");
       ("STATUS", JStr "Open");
       ("LOCATION", JStr "Ballina Co. Mayo");
       ("COUNTY", JStr "Mayo");
       ("STARTDATE", JNum 1700000000000);
       ("DESCRIPTION",
        JStr "<div>Repairs under way.</div>Reference: MAY00102991<br/>")]) |};
  {| properties := Some (list_to_map [
       ("OBJECTID", JNum 102);
       ("LOCATION", JStr "Westport");
       ("COUNTY", JStr "Mayo");
       ("REFERENCENUM", JStr "MAY00103000");
       ("DESCRIPTION", JStr "Supply from the Ballina scheme is reduced")]);
     attributes := None |};
  {| properties := None;
     attributes := Some (list_to_map [
       ("OBJECTID", JNum 103);
       ("LOCATION", JStr "Castlebar");
       ("COUNTY", JStr "Mayo")]) |}
].

Definition example_axios_get (url : string) (p : params)
    : completion (option (list (option feature))) :=
  Normal (Some (Some <$> example_features)).

(** The example features, normalised. *)
Definition example_outages : list outage :=
  match array_map
          (λ ft, normalizeOutage example_Date_parse example_toLocaleString
                   (feature_props ft))
          example_features with
  | Normal os => os
  | Throw _ => []
  end.

(** * Properties *)

Ltac ascii_cases c := destruct c as [[] [] [] [] [] [] [] []].

(** ** Strings: basic facts *)

Lemma app_cons c s t : String c s +:+ t = String c (s +:+ t).
Proof. reflexivity. Qed.

Lemma app_empty_l s : "" +:+ s = s.
Proof. reflexivity. Qed.

Lemma app_empty_r s : s +:+ "" = s.
Proof. induction s as [|c s IH]; [done|]. by rewrite app_cons, IH. Qed.

Lemma app_assoc_str s t u : (s +:+ t) +:+ u = s +:+ t +:+ u.
Proof. induction s as [|c s IH]; [done|]. by rewrite !app_cons, IH. Qed.

Lemma length_app_str s t :
  String.length (s +:+ t) = String.length s + String.length t.
Proof.
  induction s as [|c s IH]; [done|]. rewrite app_cons. simpl. by rewrite IH.
Qed.

Lemma is_empty_true s : is_empty s = true ↔ s = "".
Proof. by destruct s. Qed.

Lemma is_empty_false s : is_empty s = false ↔ s ≠ "".
Proof. by destruct s. Qed.


Lemma take_str_app s t : take_str (String.length s) (s +:+ t) = s.
Proof.
  induction s as [|c s IH]; [by destruct t|].
  rewrite app_cons. simpl. by rewrite IH.
Qed.

Lemma toLowerCase_length s : String.length (toLowerCase s) = String.length s.
Proof.
  unfold toLowerCase. induction s as [|c s IH]; [done|]. simpl. by rewrite IH.
Qed.

Lemma toLowerCase_empty s : toLowerCase s = "" ↔ s = "".
Proof. by destruct s. Qed.

(** ** [trim] *)

Lemma trimStart_spec s :
  ∃ a, s = a +:+ trimStart s ∧ all_str is_space a = true
       ∧ starts_with_space (trimStart s) = false.
Proof.
  induction s as [|c s (a & E & Ha & Hs)].
  - by exists "".
  - simpl. destruct (is_space c) eqn:Hc.
    + exists (String c a). rewrite app_cons, <- E. simpl. by rewrite Hc, Ha.
    + exists "". simpl. by rewrite Hc.
Qed.

Lemma trimEnd_spec s :
  ∃ b, s = trimEnd s +:+ b ∧ all_str is_space b = true
       ∧ ends_with_space (trimEnd s) = false.
Proof.
  induction s as [|c s (b & E & Hb & Hs)].
  - by exists "".
  - simpl. destruct (is_space c) eqn:Hc; simpl.
    + destruct (trimEnd s) as [|d r] eqn:Hr; simpl.
      * exists (String c b). rewrite app_empty_l in *. subst s.
        simpl. by rewrite Hc, Hb.
      * exists b. rewrite app_cons, <- E. done.
    + exists b. rewrite app_cons, <- E. split; [done|]. split; [done|].
      destruct (trimEnd s); [by rewrite Hc | done].
Qed.

Lemma trimEnd_keeps_start s :
  starts_with_space s = false → starts_with_space (trimEnd s) = false.
Proof.
  destruct s as [|c s]; [done|]. simpl. intros H. by rewrite H.
Qed.

Lemma trim_spec s :
  ∃ a b, s = a +:+ trim s +:+ b
         ∧ all_str is_space a = true ∧ all_str is_space b = true
         ∧ starts_with_space (trim s) = false
         ∧ ends_with_space (trim s) = false.
Proof.
  destruct (trimStart_spec s) as (a & Ea & Ha & Hs).
  destruct (trimEnd_spec (trimStart s)) as (b & Eb & Hb & He).
  exists a, b. unfold trim. rewrite <- Eb.
  repeat split; auto using trimEnd_keeps_start.
Qed.

(** ** The normaliser *)

Lemma strict_eq_zero v : strict_eq v (JNum 0) = true → v = JNum 0.
Proof. unfold strict_eq. apply bool_decide_eq_true. Qed.

Section Normalizer.

Variable Date_parse : string → option Z.
Variable toLocaleString : Z → string.

Lemma stripHtml_texty v :
  texty v = true → ∃ out, stripHtml (js_or v (JStr "")) = Normal out.
Proof.
  destruct v as [| |[]|n|[|c s]]; try done; unfold stripHtml, js_or; simpl;
    eauto.
  destruct (n =? 0)%Z eqn:E; simpl; [eauto | by rewrite E].
Qed.

Lemma stripHtml_not_texty v :
  texty v = false →
  stripHtml (js_or v (JStr "")) = Throw "html.replace is not a function".
Proof.
  destruct v as [| |[]|n|[|c s]]; try done.
  simpl. intros E. apply negb_false_iff in E.
  unfold stripHtml, js_or. simpl. rewrite E. simpl. rewrite E. reflexivity.
Qed.

Lemma extractReference_string d :
  extractReference (JStr d) =
  Normal match search ref_re None d with Some m => JStr m | None => JNull end.
Proof. by destruct d. Qed.

(** What [normalizeOutage] returns once the description is stripped. *)
Lemma normalizeOutage_unfold props :
  normalizeOutage Date_parse toLocaleString props =
  (plainDesc <- stripHtml (js_or (get props "DESCRIPTION") (JStr "")) ;;
   Normal {|
     objectid := get props "OBJECTID";
     globalid := get props "GLOBALID";
     title := js_or (get props "TITLE") (JStr "");
     status := js_or (get props "STATUS") (JStr "");
     location := js_or (get props "LOCATION") (JStr "");
     county := js_or (get props "COUNTY") (JStr "");
     startdate_epoch := js_or (get props "STARTDATE") JNull;
     enddate_epoch := js_or (get props "ENDDATE") JNull;
     startdate_human :=
       formatDate Date_parse toLocaleString (get props "STARTDATE");
     enddate_human :=
       formatDate Date_parse toLocaleString (get props "ENDDATE");
     reference :=
       if truthy (get props "REFERENCENUM") then get props "REFERENCENUM"
       else match search ref_re None plainDesc with
            | Some m => JStr m
            | None => JNull
            end;
     description := JStr plainDesc
   |}).
Proof.
  unfold normalizeOutage.
  destruct (stripHtml _) as [d|e]; simpl; [|done].
  rewrite extractReference_string.
  by destruct (truthy (get props "REFERENCENUM")).
Qed.

Lemma normalizeOutage_returns props :
  texty (get props "DESCRIPTION") = true →
  ∃ o, normalizeOutage Date_parse toLocaleString props = Normal o.
Proof.
  intros [d Hd]%stripHtml_texty. rewrite normalizeOutage_unfold, Hd. simpl.
  eauto.
Qed.

Lemma normalizeOutage_throws props :
  texty (get props "DESCRIPTION") = false →
  normalizeOutage Date_parse toLocaleString props
  = Throw "html.replace is not a function".
Proof.
  intros Hd%stripHtml_not_texty. by rewrite normalizeOutage_unfold, Hd.
Qed.

Lemma formatDate_zero :
  formatDate Date_parse toLocaleString (JNum 0) = JStr (toLocaleString 0).
Proof. reflexivity. Qed.

(** C2. An epoch that is literally 0 is rendered by [formatDate], but the
    epoch field itself comes from [|| null] and is null: the value 0 is
    not preserved there. *)
Theorem zero_epoch_field_is_null props o :
  normalizeOutage Date_parse toLocaleString props = Normal o →
  (get props "STARTDATE" = JNum 0 →
     startdate_epoch o = JNull ∧
     startdate_human o = JStr (toLocaleString 0)) ∧
  (get props "ENDDATE" = JNum 0 →
     enddate_epoch o = JNull ∧
     enddate_human o = JStr (toLocaleString 0)).
Proof.
  rewrite normalizeOutage_unfold.
  destruct (stripHtml _) as [d|e]; simpl; [|done].
  intros [= <-]; simpl. split; intros ->; by rewrite formatDate_zero.
Qed.

(** C3 (amended). A record with no optional field normalises to a record
    in which title, status, location, county and description are the
    empty string, the global identifier is passed through as undefined,
    and the epoch, human-readable and reference fields are null. *)
Theorem missing_fields_defaults props :
  Forall (λ k, props !! k = None) optional_fields →
  normalizeOutage Date_parse toLocaleString props = Normal {|
    objectid := get props "OBJECTID";
    globalid := JUndefined;
    title := JStr "";
    status := JStr "";
    location := JStr "";
    county := JStr "";
    startdate_epoch := JNull;
    enddate_epoch := JNull;
    startdate_human := JNull;
    enddate_human := JNull;
    reference := JNull;
    description := JStr ""
  |}.
Proof.
  intros H. rewrite normalizeOutage_unfold.
  assert (∀ k, k ∈ optional_fields → get props k = JUndefined) as G.
  { intros k Hk. unfold get. eapply Forall_forall in H; [|exact Hk].
    by rewrite H. }
  rewrite (G "GLOBALID"), (G "TITLE"), (G "STATUS"), (G "LOCATION"),
    (G "COUNTY"), (G "STARTDATE"), (G "ENDDATE"), (G "REFERENCENUM"),
    (G "DESCRIPTION") by (unfold optional_fields; set_solver).
  reflexivity.
Qed.

(** C5 (amended). [normalizeOutage] returns a record for every raw record
    whose description is missing, falsy or a string; the other fields
    may hold anything or be missing. *)
Theorem normalize_total_on_text props :
  texty (get props "DESCRIPTION") = true →
  ∃ o, normalizeOutage Date_parse toLocaleString props = Normal o ∧
       ∃ d, description o = JStr d.
Proof.
  intros [d Hd]%stripHtml_texty. rewrite normalizeOutage_unfold, Hd. simpl.
  eauto.
Qed.

Lemma js_or_texty v : texty v = true → texty (js_or v (JStr "")) = true.
Proof.
  destruct v as [| |[]|n|s]; try done.
  - unfold js_or. simpl. by destruct (n =? 0)%Z.
  - unfold js_or. simpl. by destruct s.
Qed.

(** A record whose location is text normalises to a textual outage. *)
Lemma normalizeOutage_textual props o :
  normalizeOutage Date_parse toLocaleString props = Normal o →
  texty (get props "LOCATION") = true → textual o.
Proof.
  rewrite normalizeOutage_unfold.
  destruct (stripHtml _) as [d|e]; simpl; [|done].
  intros [= <-] Hl. split; simpl; [by apply js_or_texty | done].
Qed.

(** The human-readable field is null exactly when the epoch is falsy
    without being 0, or is no valid instant. *)
Lemma formatDate_null_iff v :
  formatDate Date_parse toLocaleString v = JNull ↔
  (truthy v = false ∧ v ≠ JNum 0) ∨ Date_time Date_parse v = None.
Proof.
  unfold formatDate. destruct (truthy v) eqn:Ht; simpl.
  - destruct (Date_time Date_parse v) eqn:D; intuition discriminate.
  - destruct (strict_eq v (JNum 0)) eqn:E; simpl.
    + apply strict_eq_zero in E as ->. simpl. intuition discriminate.
    + split; [|done]. intros _. left. split; [done|].
      intros ->. by vm_compute in E.
Qed.

End Normalizer.

(** ** The outage filter *)

Lemma starts_with_spec t s :
  starts_with t s = true ↔ ∃ post, s = t +:+ post.
Proof.
  revert s. induction t as [|a t IH]; intros s; simpl.
  - split; [by exists s | done].
  - destruct s as [|b s].
    + split; [done | by intros [post ?]].
    + rewrite andb_true_iff, IH. split.
      * intros [->%Ascii.eqb_eq [post ->]]. by exists post.
      * intros [post E]. rewrite app_cons in E. injection E as -> ->.
        split; [apply Ascii.eqb_refl | by exists post].
Qed.

Lemma includes_spec s t : includes s t = true ↔ contains s t.
Proof.
  unfold contains. induction s as [|c s IH].
  - simpl. rewrite orb_false_r, starts_with_spec. split.
    + intros [post E]. by exists "", post.
    + intros (pre & post & E). destruct pre; [by exists post | done].
  - cbn [includes]. rewrite orb_true_iff, IH, starts_with_spec. split.
    + intros [[post E] | (pre & post & E)].
      * by exists "", post.
      * exists (String c pre), post. by rewrite app_cons, <- E.
    + intros (pre & post & E). destruct pre as [|d pre].
      * left. by exists post.
      * right. rewrite app_cons in E. injection E as -> ->. by exists pre, post.
Qed.

Global Instance contains_dec s t : Decision (contains s t).
Proof.
  refine (cast_if (decide (includes s t = true))); by rewrite <- includes_spec.
Defined.

Lemma location_hit_spec ℓ o :
  location_hit ℓ o = true ↔
  contains (toLowerCase (text_of (location o))) ℓ
  ∨ contains (toLowerCase (text_of (description o))) ℓ.
Proof. unfold location_hit. by rewrite orb_true_iff, !includes_spec. Qed.

Lemma as_string_texty what v :
  texty v = true → as_string what (js_or v (JStr "")) = Normal (text_of v).
Proof.
  destruct v as [| |[]|n|[|c s]]; try done.
  unfold js_or. simpl. intros E. apply negb_true_iff in E. by rewrite E.
Qed.

Lemma location_matches_textual ℓ o :
  textual o → location_matches ℓ o = Normal (location_hit ℓ o).
Proof.
  intros [Hl Hd]. unfold location_matches.
  by rewrite !as_string_texty.
Qed.

Lemma array_filter_pure {A} (p : A → completion bool) (q : A → bool) l :
  Forall (λ a, p a = Normal (q a)) l →
  array_filter p l = Normal (filter (λ a, q a = true) l).
Proof.
  induction 1 as [|a l Ha _ IH]; [done|].
  simpl. rewrite Ha, IH. simpl. rewrite filter_cons.
  destruct (q a); [by rewrite decide_True | by rewrite decide_False].
Qed.

Lemma strict_eq_true a b : strict_eq a b = true ↔ a = b.
Proof. unfold strict_eq. apply bool_decide_eq_true. Qed.

Lemma filterOutages_unfiltered outages :
  filterOutages JNull "" outages = Normal outages.
Proof. reflexivity. Qed.

Lemma Forall_textual_filter (P : outage → Prop) `{!∀ o, Decision (P o)} l :
  Forall textual l → Forall textual (filter P l).
Proof.
  intros Hl. apply Forall_forall. intros o [_ Ho]%list_elem_of_filter.
  by eapply Forall_forall in Hl.
Qed.

(** The location stage on textual outages. *)
Lemma filterOutages_location ℓ outages :
  Forall textual outages →
  filterOutages JNull ℓ outages =
  Normal (if decide (ℓ = "") then outages
          else filter (λ o, location_hit ℓ o = true) outages).
Proof.
  intros H. unfold filterOutages. simpl.
  destruct ℓ as [|c ℓ]; [done|]. simpl.
  apply array_filter_pure. eapply Forall_impl; [exact H|].
  intros o Ho. by apply location_matches_textual.
Qed.

(** The reference stage comes first and hands its result to the location
    stage. *)
Lemma filterOutages_refnum r ℓ outages :
  filterOutages (js_or (JStr r) JNull) ℓ outages =
  filterOutages JNull ℓ
    (if decide (r = "") then outages
     else filter (λ o, reference o = JStr r) outages).
Proof.
  unfold filterOutages. destruct r as [|c r]; [done|].
  unfold js_or. simpl.
  rewrite (list_filter_iff _ (λ o, reference o = JStr (String c r))); [done|].
  intros o. apply strict_eq_true.
Qed.

(** C6. The reference filter trims the parameter, takes an empty result
    as no filter, and otherwise keeps exactly the outages whose reference
    is the trimmed parameter, character by character. *)
Theorem refnum_filter_exact req q ℓ outages :
  q_refnum req = Some (QStr q) →
  (∃ a b, q = a +:+ trim q +:+ b
          ∧ all_str is_space a = true ∧ all_str is_space b = true
          ∧ starts_with_space (trim q) = false
          ∧ ends_with_space (trim q) = false) ∧
  query_refnum req = Normal (js_or (JStr (trim q)) JNull) ∧
  (refnum <- query_refnum req ;; filterOutages refnum ℓ outages) =
    filterOutages JNull ℓ
      (if decide (trim q = "") then outages
       else filter (λ o, reference o = JStr (trim q)) outages) ∧
  (refnum <- query_refnum req ;; filterOutages refnum "" outages) =
    Normal (if decide (trim q = "") then outages
            else filter (λ o, reference o = JStr (trim q)) outages).
Proof.
  intros Hq. split; [apply trim_spec|].
  unfold query_refnum. rewrite Hq. simpl. split; [done|].
  rewrite !filterOutages_refnum. split; [done|].
  apply filterOutages_unfiltered.
Qed.

(** ** Letter case *)

Lemma ascii_all (P : ascii → bool) :
  forallb (λ n, P (ascii_of_nat n)) (seq 0 256) = true → ∀ a, P a = true.
Proof.
  intros H a. rewrite forallb_forall in H.
  specialize (H (nat_of_ascii a)). rewrite ascii_nat_embedding in H.
  apply H, in_seq. pose proof (nat_ascii_bounded a). lia.
Qed.

Lemma lower_char_same_letter a b :
  Ascii.eqb (lower_char a) (lower_char b) = same_letter a b.
Proof.
  apply Bool.eqb_prop. revert b. apply ascii_all with
    (P := λ b, Bool.eqb (Ascii.eqb (lower_char a) (lower_char b))
                 (same_letter a b)).
  revert a. apply ascii_all with
    (P := λ a, forallb (λ n, Bool.eqb
                 (Ascii.eqb (lower_char a) (lower_char (ascii_of_nat n)))
                 (same_letter a (ascii_of_nat n))) (seq 0 256)).
  by vm_compute.
Qed.

Lemma lower_char_folds c :
  same_letter (lower_char c) c = true ∧ is_capital (lower_char c) = false.
Proof.
  assert (same_letter (lower_char c) c
          && negb (is_capital (lower_char c)) = true) as H.
  { revert c. apply ascii_all with
      (P := λ c, same_letter (lower_char c) c
                 && negb (is_capital (lower_char c))).
    by vm_compute. }
  apply andb_true_iff in H as [H1 H2]. by apply negb_true_iff in H2.
Qed.

Lemma toLowerCase_eq_iff s t :
  toLowerCase s = toLowerCase t ↔ eq_ignoring_case s t = true.
Proof.
  unfold toLowerCase. revert t.
  induction s as [|a s IH]; intros [|b t]; simpl; try done.
  rewrite andb_true_iff, <- IH, <- lower_char_same_letter, Ascii.eqb_eq.
  split; [by intros [= -> ->] | by intros [-> ->]].
Qed.

(** Lowercasing gives the same letters, and leaves no capital. *)
Lemma toLowerCase_folds s :
  eq_ignoring_case (toLowerCase s) s = true
  ∧ all_str (λ c, negb (is_capital c)) (toLowerCase s) = true.
Proof.
  unfold toLowerCase. induction s as [|c s [IH1 IH2]]; [done|]. simpl.
  destruct (lower_char_folds c) as [-> Hc]. by rewrite Hc, IH1, IH2.
Qed.

Lemma map_str_app g s t : map_str g (s +:+ t) = map_str g s +:+ map_str g t.
Proof.
  induction s as [|c s IH]; [done|]. rewrite app_cons. simpl.
  by rewrite IH.
Qed.

Lemma map_str_app_inv g s a b :
  map_str g s = a +:+ b →
  ∃ s1 s2, s = s1 +:+ s2 ∧ map_str g s1 = a ∧ map_str g s2 = b.
Proof.
  revert s. induction a as [|c a IH]; intros s.
  - rewrite app_empty_l. intros H. by exists "", s.
  - destruct s as [|d s]; [done|]. rewrite app_cons. simpl.
    intros [= Hd (s1 & s2 & -> & <- & <-)%IH].
    exists (String d s1), s2. simpl. by rewrite Hd.
Qed.

(** Containment between the lowercased strings is containment up to
    letter case between the strings themselves. *)
Lemma contains_lower_iff s t :
  contains (toLowerCase s) (toLowerCase t) ↔ contains_ignoring_case s t.
Proof.
  unfold contains, contains_ignoring_case. split.
  - intros (pre & post & E). unfold toLowerCase in E at 1.
    apply map_str_app_inv in E as (s1 & s' & -> & _ & E).
    apply map_str_app_inv in E as (w & s2 & -> & E & _).
    exists s1, w, s2. split; [done|]. by apply toLowerCase_eq_iff.
  - intros (pre & w & post & -> & E). apply toLowerCase_eq_iff in E.
    exists (toLowerCase pre), (toLowerCase post).
    unfold toLowerCase in *. by rewrite !map_str_app, E.
Qed.

Global Instance contains_ignoring_case_dec s t :
  Decision (contains_ignoring_case s t).
Proof.
  refine (cast_if (decide (contains (toLowerCase s) (toLowerCase t))));
    by rewrite <- contains_lower_iff.
Defined.

(** C7. The location filter trims and lowercases the parameter, takes an
    empty result as no filter, and otherwise keeps exactly the outages
    whose lowercased location or lowercased description contains it:
    the outages whose location or description holds the trimmed
    parameter up to letter case. *)
Theorem location_filter_exact req q outages :
  q_location req = Some (QStr q) →
  Forall textual outages →
  (∃ a b, q = a +:+ trim q +:+ b
          ∧ all_str is_space a = true ∧ all_str is_space b = true
          ∧ starts_with_space (trim q) = false
          ∧ ends_with_space (trim q) = false) ∧
  query_location req = Normal (toLowerCase (trim q)) ∧
  eq_ignoring_case (toLowerCase (trim q)) (trim q) = true ∧
  all_str (λ c, negb (is_capital c)) (toLowerCase (trim q)) = true ∧
  (ℓ <- query_location req ;; filterOutages JNull ℓ outages) =
    Normal (if decide (toLowerCase (trim q) = "") then outages
            else filter
                   (λ o, contains (toLowerCase (text_of (location o)))
                           (toLowerCase (trim q))
                         ∨ contains (toLowerCase (text_of (description o)))
                             (toLowerCase (trim q)))
                   outages) ∧
  (ℓ <- query_location req ;; filterOutages JNull ℓ outages) =
    Normal (if decide (trim q = "") then outages
            else filter
                   (λ o, contains_ignoring_case (text_of (location o))
                           (trim q)
                         ∨ contains_ignoring_case
                             (text_of (description o)) (trim q))
                   outages).
Proof.
  intros Hq Ht. split; [apply trim_spec|].
  unfold query_location. rewrite Hq. simpl. split; [done|].
  destruct (toLowerCase_folds (trim q)) as [Hf Hc].
  split; [done|]. split; [done|].
  rewrite filterOutages_location by done.
  split.
  - case_decide; [done|]. f_equal. apply list_filter_iff.
    intros o. apply location_hit_spec.
  - f_equal. destruct (decide (trim q = "")) as [E|E].
    + by rewrite decide_True by by apply toLowerCase_empty.
    + rewrite decide_False by by rewrite toLowerCase_empty.
      apply list_filter_iff. intros o.
      by rewrite location_hit_spec, !contains_lower_iff.
Qed.

Lemma filterOutages_stages refnum ℓ outages :
  filterOutages refnum ℓ outages =
  filterOutages JNull ℓ
    (if truthy refnum
     then filter (λ o, strict_eq (reference o) refnum = true) outages
     else outages).
Proof. reflexivity. Qed.

Lemma filter_all {A} (P : A → Prop) `{!∀ a, Decision (P a)} (l : list A) :
  (∀ a, P a) → filter P l = l.
Proof.
  intros HP. induction l as [|a l IH]; [done|].
  by rewrite filter_cons_True, IH.
Qed.

Lemma filterOutages_both refnum ℓ outages :
  Forall textual outages →
  filterOutages refnum ℓ outages =
  Normal (filter (λ o, loc_pass ℓ o ∧ ref_pass refnum o) outages).
Proof.
  intros Ht. rewrite filterOutages_stages.
  set (l1 := if truthy refnum then _ else _).
  assert (l1 = filter (ref_pass refnum) outages) as ->.
  { subst l1. unfold ref_pass. destruct (truthy refnum).
    - apply list_filter_iff. intros o. rewrite strict_eq_true. intuition discriminate.
    - symmetry. apply filter_all. auto. }
  rewrite filterOutages_location by by apply Forall_textual_filter.
  rewrite <- list_filter_filter. f_equal. unfold loc_pass.
  case_decide as Hℓ.
  - symmetry. apply filter_all. auto.
  - apply list_filter_iff. intros o. rewrite location_hit_spec. tauto.
Qed.

(** C8. Without a reference and a location argument the list comes back
    as it was given; with arguments, an outage is kept exactly when it
    passes both filters, and the kept outages stay in their input order. *)
Theorem filter_identity_and_composition outages :
  (∀ req, q_refnum req = None → q_location req = None →
     (refnum <- query_refnum req ;;
      locationFilter <- query_location req ;;
      filterOutages refnum locationFilter outages)
     = Normal outages) ∧
  (∀ refnum ℓ, Forall textual outages →
     ∃ kept,
       filterOutages refnum ℓ outages = Normal kept ∧
       kept = filter (λ o, loc_pass ℓ o ∧ ref_pass refnum o) outages ∧
       kept `sublist_of` outages).
Proof.
  split.
  - intros req Hr Hl. unfold query_refnum, query_location.
    rewrite Hr, Hl. reflexivity.
  - intros refnum ℓ Ht. eexists. split; [by apply filterOutages_both|].
    split; [done|]. apply sublist_filter.
Qed.

(** ** The handler *)

Lemma trimmed_textual name v :
  textual_param v → trimmed name v = Normal (trim (param_string v)).
Proof. by destruct v as [[s|t]|]. Qed.

Lemma trimmed_other name v :
  ¬ textual_param v →
  trimmed name v =
  Throw ("(req.query." +:+ name +:+ " || " +:+ QQ
         +:+ ").trim is not a function").
Proof. destruct v as [[s|t]|]; simpl; tauto. Qed.

Lemma textual_param_dec v : {textual_param v} + {¬ textual_param v}.
Proof. destruct v as [[s|t]|]; simpl; auto. Qed.

Section Handler.

Variable Date_parse : string → option Z.
Variable toLocaleString : Z → string.
Variable axios_get :
  string → params → completion (option (list (option feature))).


(** C10. In a successful reply to a request whose location parameter is
    not blank, the echoed location filter is the trimmed and lowercased
    parameter and the count is the number of outages returned. *)
Theorem reply_echoes_location_and_count req q effects code c r lf n outs :
  q_location req = Some (QStr q) →
  trim q ≠ "" →
  handler Date_parse toLocaleString axios_get req =
    (effects,
     Normal {| status_code := code; json := OutagesBody c r lf n outs |}) →
  code = 200 ∧ lf = JStr (toLowerCase (trim q)) ∧ n = length outs.
Proof.
  intros Hq Hne. unfold handler, query_location. rewrite Hq.
  destruct (query_refnum req) as [rn|e]; simpl; [|intros H; inversion H].
  destruct (negb _); [intros H; inversion H|].
  destruct (param_text _) as [ct|e]; [|intros H; inversion H].
  destruct (axios_get _ _) as [data|e]; simpl; [|intros H; inversion H].
  destruct (array_map _ _) as [os|e]; simpl; [|intros H; inversion H].
  destruct (filterOutages _ _ _) as [os'|e]; simpl; [|intros H; inversion H].
  intros H; inversion H; subst. split; [done|]. split; [|done].
  unfold js_or. simpl.
  destruct (toLowerCase (trim q)) eqn:E; [exfalso|done].
  apply (proj1 (toLowerCase_empty _)) in E. contradiction.
Qed.

End Handler.

(** ** Global replacement: fuel and unfolding *)

Lemma replace_from_fuel r repl n :
  ∀ m prev s,
    String.length s < n → String.length s < m →
    replace_from n r repl prev s = replace_from m r repl prev s.
Proof.
  induction n as [|n IH]; intros [|m] prev s Hn Hm; try lia.
  simpl.
  assert (match s with
          | String c s' => String c (replace_from n r repl (Some c) s')
          | "" => ""
          end =
          match s with
          | String c s' => String c (replace_from m r repl (Some c) s')
          | "" => ""
          end) as Hskip.
  { destruct s as [|c s']; [done|]. simpl in *. f_equal. apply IH; lia. }
  rewrite Hskip. destruct (exec r (prev, s)) as [[p' rest]|]; [|done].
  destruct (Nat.ltb_spec (String.length rest) (String.length s)); [|done].
  f_equal. apply IH; lia.
Qed.

Lemma replace_rest_eq r repl prev s :
  replace_rest r repl prev s =
  let skip :=
    match s with
    | String c s' => String c (replace_rest r repl (Some c) s')
    | "" => ""
    end in
  match exec r (prev, s) with
  | Some (prev', rest) =>
      if String.length rest <? String.length s
      then repl +:+ replace_rest r repl prev' rest
      else repl +:+ skip
  | None => skip
  end.
Proof.
  unfold replace_rest at 1. cbn [replace_from].
  destruct s as [|c s']; [done|].
  cbn zeta. destruct (exec r _) as [[p' rest]|]; [|done].
  destruct (Nat.ltb_spec (String.length rest) (String.length (String c s')));
    [|done].
  f_equal. apply replace_from_fuel; simpl in *; lia.
Qed.

Lemma replace_all_rest r repl s : replace_all r repl s = replace_rest r repl None s.
Proof. reflexivity. Qed.

(** Text without [<] is copied. *)
Lemma replace_rest_plain r repl prev a s :
  opens_with_lt r → no_lt a = true →
  replace_rest r repl prev (a +:+ s) =
  a +:+ replace_rest r repl (last_of prev a) s.
Proof.
  intros Hr. revert prev. induction a as [|c a IH]; intros prev Ha; [done|].
  simpl in Ha. apply andb_true_iff in Ha as [Hc Ha].
  rewrite app_cons, replace_rest_eq. cbn zeta.
  destruct (exec r _) as [y|] eqn:E.
  - apply Hr in E as [[t [= -> _]] _]. done.
  - by rewrite IH.
Qed.

(** A match is replaced, and the search resumes after it. *)
Lemma replace_rest_match r repl prev s p' rest :
  exec r (prev, s) = Some (p', rest) →
  String.length rest < String.length s →
  replace_rest r repl prev s = repl +:+ replace_rest r repl p' rest.
Proof.
  intros E Hlen. rewrite replace_rest_eq, E. cbn zeta.
  by destruct (Nat.ltb_spec (String.length rest) (String.length s)); [|lia].
Qed.

(** ** The greedy star *)


(** ** The continuation only ever sees a later cursor *)

Lemma star_greedy_later p k prev s y :
  star_greedy p k prev s = Some y → later_than (prev, s) k y.
Proof.
  revert prev. induction s as [|c s IH]; intros prev; simpl.
  - intros H. by exists (prev, "").
  - destruct (p c).
    + destruct (star_greedy p k (Some c) s) eqn:E; simpl.
      * intros [= ->]. destruct (IH _ E) as (x' & Hk & Hl).
        exists x'. split; [done|]. simpl in *. lia.
      * intros H. by exists (prev, String c s).
    + intros H. by exists (prev, String c s).
Qed.

Lemma star_lazy_later p k prev s y :
  star_lazy p k prev s = Some y → later_than (prev, s) k y.
Proof.
  revert prev. induction s as [|c s IH]; intros prev; simpl.
  - destruct (k (prev, "")) eqn:E; simpl; [|done].
    intros [= ->]. by exists (prev, "").
  - destruct (k (prev, String c s)) eqn:E; simpl.
    + intros [= ->]. by exists (prev, String c s).
    + destruct (p c); [|done]. intros H.
      destruct (IH _ H) as (x' & Hk & Hl).
      exists x'. split; [done|]. simpl in *. lia.
Qed.

Lemma rmatch_later r : ∀ k x y, rmatch r k x = Some y → later_than x k y.
Proof.
  induction r as [p|r1 IH1 r2 IH2|p|p|r IH|]; intros k [prev s] y; simpl.
  - destruct s as [|c s]; [done|]. destruct (p c); [|done].
    intros H. exists (Some c, s). split; [done|]. simpl. lia.
  - intros H. destruct (IH1 _ _ _ H) as (x1 & H1 & Hl1).
    destruct (IH2 _ _ _ H1) as (x2 & H2 & Hl2).
    exists x2. split; [done|]. lia.
  - apply star_greedy_later.
  - apply star_lazy_later.
  - destruct (rmatch r k (prev, s)) eqn:E; simpl.
    + intros [= ->]. by apply IH.
    + intros H. by exists (prev, s).
  - destruct (xorb _ _); [|done]. intros H. by exists (prev, s).
Qed.

Lemma exec_later r x y :
  exec r x = Some y → String.length y.2 ≤ String.length x.2.
Proof. intros (x' & [= ->] & Hl)%rmatch_later. done. Qed.

(** A regex that begins with a literal [<] opens with it. *)
Lemma opens_with_lt_Cat p r :
  (∀ c, p c = true → c = "<"%char) → opens_with_lt (Cat (Chr p) r).
Proof.
  intros Hp prev s y. unfold exec. simpl.
  destruct s as [|c s]; [done|]. destruct (p c) eqn:Hc; [|done].
  intros (x' & [= ->] & Hl)%rmatch_later. apply Hp in Hc as ->.
  split; [by exists s|]. simpl in *. lia.
Qed.

(** ** The three tag patterns *)

Lemma lit_eq a c : lit a c = true ↔ c = a.
Proof. apply Ascii.eqb_eq. Qed.

Lemma lit_i_lt c : lit_i "<" c = true → c = "<"%char.
Proof. ascii_cases c; by vm_compute. Qed.







Lemma opens_br : opens_with_lt br_re.
Proof. apply opens_with_lt_Cat, lit_i_lt. Qed.
Lemma opens_div : opens_with_lt div_re.
Proof. apply opens_with_lt_Cat, lit_i_lt. Qed.
Lemma opens_tag : opens_with_lt tag_re.
Proof. apply opens_with_lt_Cat. intros c. apply lit_eq. Qed.

(** Plain text, then a tag: the text is copied, the tag replaced, and the
    replacement goes on after the tag. *)
Lemma replace_all_tag r repl (tag_shape : string → Prop) a t b :
  opens_with_lt r →
  (∀ prev t rest, tag_shape t →
     exec r (prev, t +:+ rest) = Some (Some ">"%char, rest)) →
  no_lt a = true → tag_shape t →
  replace_all r repl (a +:+ t +:+ b) =
  a +:+ repl +:+ replace_rest r repl (Some ">"%char) b.
Proof.
  intros Hr Hex Ha Ht. rewrite replace_all_rest.
  rewrite replace_rest_plain by done. f_equal.
  pose proof (Hex (last_of None a) t b Ht) as E.
  apply replace_rest_match; [done|].
  by apply Hr in E as [_ ?].
Qed.

(** The three patterns begin with a literal, so the unit before the
    cursor plays no part in them. *)
Lemma exec_Cat_Chr_prev p r prev s :
  exec (Cat (Chr p) r) (prev, s) = exec (Cat (Chr p) r) (None, s).
Proof. by destruct s. Qed.

Lemma replace_from_prev r repl :
  (∀ prev s, exec r (prev, s) = exec r (None, s)) →
  ∀ n p1 p2 s, replace_from n r repl p1 s = replace_from n r repl p2 s.
Proof.
  intros Hr. induction n as [|n IH]; intros p1 p2 s; [done|].
  simpl. rewrite (Hr p1), (Hr p2).
  destruct (exec r (None, s)) as [[p' rest]|]; done.
Qed.

Lemma replace_rest_all r repl prev s :
  (∀ prev s, exec r (prev, s) = exec r (None, s)) →
  replace_rest r repl prev s = replace_all r repl s.
Proof. intros Hr. by apply replace_from_prev. Qed.

(** ** No tag on one line is left *)








Lemma split_lf_cons s : ∃ l ls, split_lf s = l :: ls.
Proof.
  induction s as [|c s (l & ls & E)]; [by eexists _, _|]. simpl.
  destruct (is_code 10 c); [by eexists _, _|]. rewrite E. by eexists _, _.
Qed.

Lemma join_lf_cons l l' ls :
  join_lf (l :: l' :: ls) = l +:+ LF +:+ join_lf (l' :: ls).
Proof. reflexivity. Qed.

Lemma join_split s : join_lf (split_lf s) = s.
Proof.
  induction s as [|c s IH]; [done|]. simpl.
  destruct (split_lf_cons s) as (l & ls & E). rewrite E in *.
  destruct (is_code 10 c) eqn:Hc.
  - assert (c = "010"%char) as -> by (by ascii_cases c).
    by rewrite join_lf_cons, IH.
  - destruct ls as [|l' ls].
    + simpl in *. by rewrite IH.
    + rewrite join_lf_cons in *. by rewrite app_cons, IH.
Qed.






(** ** The lines of the stripped description *)



Lemma stripHtml_string h :
  stripHtml (JStr h) =
  Normal (join_lf (filter (λ l, l ≠ "")
            (trim <$> split_lf
               (replace_all tag_re ""
                  (replace_all div_re LF (replace_all br_re LF h)))))).
Proof. by destruct h. Qed.



(** ** The three stages, said without the matcher *)







Lemma trimStart_fixed s : starts_with_space s = false → trimStart s = s.
Proof. destruct s as [|c s]; [done|]. simpl. by intros ->. Qed.

Lemma trimEnd_fixed s : ends_with_space s = false → trimEnd s = s.
Proof.
  induction s as [|c s IH]; [done|]. simpl.
  destruct s as [|d s].
  - simpl. by intros ->.
  - intros H. rewrite (IH H). by rewrite andb_false_r.
Qed.

Lemma trim_fixed s :
  starts_with_space s = false → ends_with_space s = false → trim s = s.
Proof.
  intros H1 H2. unfold trim. by rewrite trimStart_fixed, trimEnd_fixed.
Qed.

Lemma split_lf_one s : no_lf s = true → split_lf s = [s].
Proof.
  unfold no_lf. induction s as [|c s IH]; [done|]. simpl.
  intros [Hc Hs]%andb_true_iff. apply negb_true_iff in Hc.
  by rewrite Hc, (IH Hs).
Qed.

Section Replaced.
Variables (r : regex) (repl : string) (tag : string → Prop).
Hypothesis opens : opens_with_lt r.
Hypothesis exec_inv :
  ∀ prev s y, exec r (prev, s) = Some y → ∃ t, tag t ∧ s = t +:+ y.2.
Hypothesis exec_tag :
  ∀ prev t rest, tag t →
    exec r (prev, t +:+ rest) = Some (Some ">"%char, rest).



End Replaced.













(** ** The reference pattern *)

Lemma length_zero s : String.length s = 0 → s = "".
Proof. by destruct s. Qed.

Lemma rmatch_Rep n p r k y :
  ∀ prev s,
    rmatch (Rep n p r) k (prev, s) = Some y ↔
    ∃ u rest, s = u +:+ rest ∧ String.length u = n ∧ all_str p u = true
              ∧ rmatch r k (last_of prev u, rest) = Some y.
Proof.
  induction n as [|n IH]; intros prev s.
  - simpl. split.
    + intros H. by exists "", s.
    + intros (u & rest & -> & ->%length_zero & _ & H). done.
  - cbn [Rep rmatch snd]. split.
    + destruct s as [|c s]; [done|]. destruct (p c) eqn:Hc; [|done].
      intros (u & rest & -> & <- & Hu & H)%IH.
      exists (String c u), rest. simpl. by rewrite Hc, Hu.
    + intros (u & rest & -> & Hl & Hu & H).
      destruct u as [|c u]; [done|]. simpl in *.
      apply andb_true_iff in Hu as [-> Hu].
      apply IH. exists u, rest. split; [done|]. split; [lia|]. done.
Qed.

Lemma upper_word c : is_upper c = true → is_word c = true.
Proof. unfold is_word. by intros ->. Qed.

Lemma digit_word c : is_digit c = true → is_word c = true.
Proof. unfold is_word. intros ->. by rewrite !orb_true_r. Qed.

Lemma last_of_all p prev v :
  all_str p v = true → v ≠ "" → ∃ c, last_of prev v = Some c ∧ p c = true.
Proof.
  revert prev. induction v as [|c v IH]; intros prev Hv Hne; [done|].
  simpl in *. apply andb_true_iff in Hv as [Hc Hv].
  destruct v as [|d v]; [by exists c|]. by apply IH.
Qed.

Lemma last_of_app prev u v : last_of prev (u +:+ v) = last_of (last_of prev u) v.
Proof. revert prev. induction u as [|c u IH]; intros prev; [done|]. apply IH. Qed.

Lemma exec_ref_re prev s y :
  exec ref_re (prev, s) = Some y ↔
  ∃ m rest, s = m +:+ rest ∧ is_reference m
            ∧ word_end prev "" = false ∧ word_start rest = false
            ∧ y = (last_of prev m, rest).
Proof.
  unfold exec, ref_re. cbn [rmatch]. split.
  - destruct (xorb _ _) eqn:Hx; [|done].
    intros (u & s1 & -> & Hlu & Hu & (v & rest & -> & Hlv & Hv & H)%rmatch_Rep)%rmatch_Rep.
    cbn [rmatch] in H.
    match type of H with
    | (if ?b then _ else _) = _ => destruct b eqn:Hy; [|done]
    end.
    injection H as <-.
    destruct (last_of_all _ (last_of prev u) v Hv) as (d & Hd & Hdw);
      [by destruct v|].
    unfold word_before, word_after in Hy. simpl in Hy. rewrite Hd in Hy.
    rewrite (digit_word _ Hdw) in Hy.
    destruct u as [|c u]; [done|]. simpl in Hu.
    apply andb_true_iff in Hu as [Hc Hu].
    unfold word_before, word_after in Hx. rewrite app_cons in Hx.
    simpl in Hx. rewrite (upper_word _ Hc) in Hx.
    exists (String c u +:+ v), rest.
    split; [by rewrite app_assoc_str|].
    split; [exists (String c u), v; simpl; by rewrite Hc, Hu|].
    split; [unfold word_end, word_before; simpl;
            by destruct (match prev with Some _ => _ | None => _ end)|].
    split; [unfold word_start; by destruct rest as [|e rest];
              [|simpl in *; destruct (is_word e)]|].
    by rewrite last_of_app.
  - intros (m & rest & -> & (u & v & -> & Hlu & Hu & Hlv & Hv) & Hp & Hr & ->).
    assert (word_after (prev, (u +:+ v) +:+ rest) = true) as Hw.
    { destruct u as [|c u]; [done|]. simpl in Hu.
      apply andb_true_iff in Hu as [Hc _]. unfold word_after.
      rewrite !app_cons. simpl. by apply upper_word. }
    unfold word_end in Hp. simpl in Hp.
    replace (word_before (prev, (u +:+ v) +:+ rest)) with false
      by (symmetry; exact Hp).
    rewrite Hw. change (xorb false true) with true. cbv iota.
    rewrite app_assoc_str.
    apply rmatch_Rep. exists u, (v +:+ rest). repeat (split; [done|]).
    apply rmatch_Rep. exists v, rest. repeat (split; [done|]).
    cbn [rmatch].
    destruct (last_of_all _ (last_of prev u) v Hv) as (d & Hd & Hdw);
      [by destruct v|].
    unfold word_before, word_after. simpl. rewrite Hd, (digit_word _ Hdw).
    unfold word_start in Hr. destruct rest as [|e rest]; simpl in *.
    + by rewrite last_of_app, Hd.
    + rewrite Hr. simpl. by rewrite last_of_app, Hd.
Qed.

Lemma is_reference_length m : is_reference m → String.length m = 11.
Proof. intros (u & v & -> & Hu & _ & Hv & _). rewrite length_app_str. lia. Qed.

Lemma app_inj_length a1 b1 a2 b2 :
  a1 +:+ b1 = a2 +:+ b2 → String.length a1 = String.length a2 →
  a1 = a2 ∧ b1 = b2.
Proof.
  revert a2. induction a1 as [|c a1 IH]; intros [|d a2]; try done.
  rewrite !app_cons. simpl. intros [= -> E] [= Hl].
  by destruct (IH _ E Hl) as [-> ->].
Qed.

Lemma reference_at_cons prev c s pre m post :
  reference_at prev (String c s) (String c pre) m post ↔
  reference_at (Some c) s pre m post.
Proof.
  unfold reference_at. rewrite app_cons. split.
  - intros ([= ->] & ? & ? & ?). done.
  - intros (-> & ? & ? & ?). done.
Qed.

Lemma exec_ref_found prev s p' rest :
  exec ref_re (prev, s) = Some (p', rest) →
  ∃ m, s = m +:+ rest ∧ reference_at prev s "" m rest.
Proof.
  intros (m & rest' & -> & Hm & Hp & Hr & [= -> ->])%exec_ref_re.
  exists m. split; [done|]. unfold reference_at. by rewrite app_empty_l.
Qed.

Lemma exec_ref_none prev s m post :
  exec ref_re (prev, s) = None → ¬ reference_at prev s "" m post.
Proof.
  intros E (-> & Hm & Hp & Hr). rewrite app_empty_l in E.
  assert (exec ref_re (prev, m +:+ post) = Some (last_of prev m, post)) as E'.
  { apply exec_ref_re. by exists m, post. }
  congruence.
Qed.

Lemma search_ref_none prev s :
  search ref_re prev s = None → ∀ pre m post, ¬ reference_at prev s pre m post.
Proof.
  revert prev. induction s as [|c s IH]; intros prev; simpl.
  - destruct (exec ref_re (prev, "")) as [[p' rest]|]; [done|].
    intros _ pre m post (E & Hm%is_reference_length & _).
    apply (f_equal String.length) in E. rewrite !length_app_str in E.
    simpl in E. lia.
  - destruct (exec ref_re (prev, String c s)) as [[p' rest]|] eqn:E; [done|].
    intros H [|d pre] m post Hat.
    + by eapply exec_ref_none.
    + assert (d = c) as ->.
      { destruct Hat as [Hd _]. rewrite app_cons in Hd. by injection Hd. }
      apply reference_at_cons in Hat. by eapply IH.
Qed.

Lemma search_eq r prev s :
  search r prev s =
  match exec r (prev, s) with
  | Some (_, rest) => Some (take_str (String.length s - String.length rest) s)
  | None =>
      match s with
      | String c s' => search r (Some c) s'
      | "" => None
      end
  end.
Proof. by destruct s. Qed.

Lemma search_ref_found prev s m :
  search ref_re prev s = Some m → first_reference_from prev s m.
Proof.
  revert prev. induction s as [|c s IH]; intros prev; rewrite search_eq.
  - destruct (exec ref_re (prev, "")) as [[p' rest]|] eqn:E; [|done].
    apply exec_ref_found in E as (m' & E & Hat).
    destruct m'; [|done]. by destruct Hat as (_ & ?%is_reference_length & _).
  - destruct (exec ref_re (prev, String c s)) as [[p' rest]|] eqn:E.
    + apply exec_ref_found in E as (m' & E & Hat). rewrite E.
      replace (String.length (m' +:+ rest) - String.length rest)
        with (String.length m') by (rewrite length_app_str; lia).
      rewrite take_str_app. intros [= <-].
      exists "", rest. rewrite <- E. split; [done|]. simpl. lia.
    + intros (pre & post & Hat & Hmin)%IH.
      exists (String c pre), post. split; [by apply reference_at_cons|].
      intros [|d pre'] m' post' Hat'.
      * by apply exec_ref_none in Hat'.
      * assert (d = c) as ->.
        { destruct Hat' as [Hd _]. rewrite app_cons in Hd. by injection Hd. }
        apply reference_at_cons, Hmin in Hat'. simpl. lia.
Qed.

Lemma first_reference_unique prev d m1 m2 :
  first_reference_from prev d m1 → first_reference_from prev d m2 → m1 = m2.
Proof.
  intros (pre1 & post1 & H1 & Hmin1) (pre2 & post2 & H2 & Hmin2).
  pose proof (Hmin1 _ _ _ H2). pose proof (Hmin2 _ _ _ H1).
  destruct H1 as (E1 & Hm1%is_reference_length & _).
  destruct H2 as (E2 & Hm2%is_reference_length & _).
  rewrite E1 in E2. apply app_inj_length in E2 as [_ E2]; [|lia].
  apply app_inj_length in E2 as [E2 _]; [done|lia].
Qed.

(** What [description.match] finds: the leftmost occurrence standing as
    a word of its own, and nothing when there is none. *)
Lemma search_ref_spec d :
  (∀ m, search ref_re None d = Some m ↔ first_reference d m)
  ∧ (search ref_re None d = None ↔
     ∀ pre m post, ¬ reference_at None d pre m post).
Proof.
  split; [intros m|]; split.
  - apply search_ref_found.
  - intros Hm. destruct (search ref_re None d) as [m'|] eqn:E.
    + f_equal. eapply first_reference_unique; [|exact Hm].
      by apply search_ref_found.
    + destruct Hm as (pre & post & Hat & _).
      by eapply search_ref_none in Hat.
  - apply search_ref_none.
  - intros Hn. destruct (search ref_re None d) as [m'|] eqn:E; [|done].
    apply search_ref_found in E as (pre & post & Hat & _).
    by apply Hn in Hat.
Qed.

Section Reference.

Variable Date_parse : string → option Z.
Variable toLocaleString : Z → string.

(** C1 (amended). An explicit reference that is truthy is used as it is.
    Otherwise the reference is the leftmost run of three capital letters
    and eight digits in the stripped description that no word character
    touches on either side, and null when there is no such run. *)
Theorem reference_derivation props :
  texty (get props "DESCRIPTION") = true →
  ∃ o d,
    normalizeOutage Date_parse toLocaleString props = Normal o
    ∧ stripHtml (js_or (get props "DESCRIPTION") (JStr "")) = Normal d
    ∧ (truthy (get props "REFERENCENUM") = true →
         reference o = get props "REFERENCENUM")
    ∧ (truthy (get props "REFERENCENUM") = false →
         (∀ m, reference o = JStr m ↔ first_reference d m)
         ∧ (reference o = JNull ↔
            ∀ pre m post, ¬ reference_at None d pre m post)).
Proof.
  intros [d Hd]%(stripHtml_texty). rewrite normalizeOutage_unfold, Hd. simpl.
  eexists _, d. split; [done|]. split; [done|]. simpl.
  split; [by intros ->|]. intros ->.
  destruct (search_ref_spec d) as [Hs Hn].
  destruct (search ref_re None d) as [m'|] eqn:E.
  - split.
    + intros m. rewrite <- Hs. split; congruence.
    + rewrite <- Hn. split; congruence.
  - split.
    + intros m. rewrite <- Hs. split; congruence.
    + by rewrite <- Hn.
Qed.

End Reference.

(** * Further properties *)

(** ** More on the helpers *)

Section Helpers.

Variable Date_parse : string → option Z.
Variable toLocaleString : Z → string.

(** X1. [formatDate] answers null exactly for a falsy value other than 0
    and for a value that is no valid instant; every other value is
    rendered from its time value. *)
Theorem formatDate_contract v :
  (formatDate Date_parse toLocaleString v = JNull ↔
     (truthy v = false ∧ v ≠ JNum 0) ∨ Date_time Date_parse v = None)
  ∧ (∀ t, truthy v = true ∨ v = JNum 0 →
          Date_time Date_parse v = Some t →
          formatDate Date_parse toLocaleString v = JStr (toLocaleString t))
  ∧ (∀ n, (Z.abs n ≤ 8640000000000000)%Z ∧ n ≠ 0%Z →
          formatDate Date_parse toLocaleString (JNum n)
          = JStr (toLocaleString n)).
Proof.
  split; [apply formatDate_null_iff|]. split.
  - intros t Hv Ht. unfold formatDate. rewrite Ht.
    destruct Hv as [-> | ->]; [done|reflexivity].
  - intros n [Hn Hz]. unfold formatDate. simpl.
    apply Z.eqb_neq in Hz. rewrite Hz. simpl.
    apply Z.leb_le in Hn. by rewrite Hn.
Qed.

(** X2. A rendered date next to a null epoch: this happens for the epoch
    0 and for no other value. *)
Theorem rendered_without_epoch_only_zero props o :
  normalizeOutage Date_parse toLocaleString props = Normal o →
  (startdate_human o ≠ JNull → startdate_epoch o = JNull →
     get props "STARTDATE" = JNum 0)
  ∧ (enddate_human o ≠ JNull → enddate_epoch o = JNull →
     get props "ENDDATE" = JNum 0).
Proof.
  rewrite normalizeOutage_unfold.
  destruct (stripHtml _) as [d|e]; simpl; [|done].
  intros [= <-]; simpl.
  assert (∀ v, formatDate Date_parse toLocaleString v ≠ JNull →
               js_or v JNull = JNull → v = JNum 0) as H.
  { intros v Hh He. unfold js_or in He. unfold formatDate in Hh.
    destruct (truthy v) eqn:Ht.
    - subst v. done.
    - simpl in Hh. destruct (strict_eq v (JNum 0)) eqn:E; [|done].
      by apply strict_eq_zero. }
  split; apply H.
Qed.

End Helpers.

(** X3. [stripHtml] answers the empty string for every falsy value, a
    string for every string, and throws for every other value. *)
Theorem stripHtml_domain v :
  (truthy v = false → stripHtml v = Normal "")
  ∧ ((∃ out, stripHtml v = Normal out) ↔ texty v = true)
  ∧ (texty v = false → stripHtml v = Throw "html.replace is not a function").
Proof.
  split; [unfold stripHtml; by intros ->|].
  destruct v as [| |[]|n|s]; simpl; (split; [split|]); try done; eauto.
  - by intros [out H].
  - unfold stripHtml. simpl. destruct (n =? 0)%Z; simpl; [done|].
    by intros [out H].
  - unfold stripHtml. simpl. destruct (n =? 0)%Z; simpl; eauto. done.
  - intros H. apply negb_false_iff in H. unfold stripHtml. simpl.
    by rewrite H.
  - intros _. rewrite stripHtml_string. eauto.
Qed.

Lemma replace_all_plain r repl s :
  opens_with_lt r → no_lt s = true → replace_all r repl s = s.
Proof.
  intros Hr Hs. rewrite replace_all_rest.
  rewrite <- (app_empty_r s) at 1. rewrite replace_rest_plain by done.
  rewrite replace_rest_eq. cbn zeta.
  destruct (exec r _) as [y|] eqn:E; [|by rewrite app_empty_r].
  by apply Hr in E as [[t ?] _].
Qed.

(** X4. Text without [<] goes through [stripHtml] untouched but for the
    lines: each is trimmed and the empty ones are dropped.  A single
    clean line comes back as it is. *)
Theorem stripHtml_plain_text s :
  no_lt s = true →
  stripHtml (JStr s)
  = Normal (join_lf (filter (λ l, l ≠ "") (trim <$> split_lf s)))
  ∧ (clean_line s → stripHtml (JStr s) = Normal s).
Proof.
  intros Hs.
  assert (stripHtml (JStr s)
          = Normal (join_lf (filter (λ l, l ≠ "") (trim <$> split_lf s))))
    as E.
  { rewrite stripHtml_string.
    by rewrite (replace_all_plain br_re), (replace_all_plain div_re),
      (replace_all_plain tag_re) by auto using opens_br, opens_div, opens_tag. }
  split; [exact E|]. intros (Hne & Hlf & H1 & H2). rewrite E.
  rewrite split_lf_one by done. simpl. rewrite trim_fixed by done.
  by rewrite filter_cons_True, filter_nil.
Qed.

(** X5. [extractReference] answers null for a falsy value and for a
    string of fewer than eleven code units; what it finds in a string is
    eleven code units long and occurs in that string; on any other value
    it throws. *)
Theorem extractReference_result v :
  (truthy v = false → extractReference v = Normal JNull)
  ∧ (texty v = false →
       extractReference v = Throw "description.match is not a function")
  ∧ (∀ d, v = JStr d →
       ∃ r, extractReference v = Normal r
            ∧ (r = JNull ∨
               ∃ m, r = JStr m ∧ String.length m = 11 ∧ contains d m)
            ∧ (String.length d < 11 → r = JNull)).
Proof.
  split; [unfold extractReference; by intros ->|]. split.
  - destruct v as [| |[]|n|s]; try done. simpl. intros H.
    apply negb_false_iff in H. unfold extractReference. simpl. by rewrite H.
  - intros d ->. rewrite extractReference_string.
    destruct (search ref_re None d) as [m|] eqn:E.
    + apply search_ref_found in E as (pre & post & (Hd & Hm & _) & _).
      apply is_reference_length in Hm.
      eexists. split; [done|]. split.
      * right. exists m. split; [done|]. split; [done|]. by exists pre, post.
      * intros Hl. rewrite Hd, !length_app_str in Hl. lia.
    + eexists. split; [done|]. split; [by left|done].
Qed.

Section Fields.

Variable Date_parse : string → option Z.
Variable toLocaleString : Z → string.

Lemma formatDate_shape v :
  formatDate Date_parse toLocaleString v = JNull
  ∨ ∃ s, formatDate Date_parse toLocaleString v = JStr s.
Proof.
  unfold formatDate. destruct (_ && _); [by left|].
  destruct (Date_time _ _); eauto.
Qed.

Lemma js_or_default v d : js_or v d = d ∨ truthy (js_or v d) = true.
Proof. unfold js_or. destruct (truthy v) eqn:E; auto. Qed.

(** X6. In a normalised outage only the two identifiers can be
    undefined.  Title, status, location and county are the empty string
    or a truthy value, the epochs are null or truthy, the human-readable
    dates are null or a string, the reference is null or truthy, and the
    description is a string. *)
Theorem normalized_fields_defined props o :
  normalizeOutage Date_parse toLocaleString props = Normal o →
  Forall (λ v, v = JStr "" ∨ truthy v = true)
    [title o; status o; location o; county o]
  ∧ Forall (λ v, v = JNull ∨ truthy v = true)
      [startdate_epoch o; enddate_epoch o; reference o]
  ∧ Forall (λ v, v = JNull ∨ ∃ s, v = JStr s)
      [startdate_human o; enddate_human o]
  ∧ ∃ d, description o = JStr d.
Proof.
  rewrite normalizeOutage_unfold.
  destruct (stripHtml _) as [d|e]; simpl; [|done].
  intros [= <-]; simpl. split; [|split; [|split]].
  - repeat (apply Forall_cons_2 || apply Forall_nil_2); apply js_or_default.
  - repeat (apply Forall_cons_2 || apply Forall_nil_2);
      try apply js_or_default.
    destruct (truthy (get props "REFERENCENUM")) eqn:E; [by right|].
    destruct (search ref_re None d) as [m|] eqn:Es; [|by left].
    right. apply search_ref_found in Es as (_ & _ & (_ & Hm & _) & _).
    apply is_reference_length in Hm. by destruct m.
  - repeat (apply Forall_cons_2 || apply Forall_nil_2);
      apply formatDate_shape.
  - by exists d.
Qed.

End Fields.

(** ** More on the filter and the handler *)

Lemma filterOutages_any refnum ℓ outages :
  ℓ = "" ∨ Forall textual outages →
  filterOutages refnum ℓ outages =
  Normal (filter (λ o, loc_pass ℓ o ∧ ref_pass refnum o) outages).
Proof.
  intros [-> | Ht]; [|by apply filterOutages_both].
  rewrite filterOutages_stages. unfold filterOutages. simpl. f_equal.
  unfold loc_pass, ref_pass. destruct (truthy refnum).
  - apply list_filter_iff. intros o. rewrite strict_eq_true.
    intuition discriminate.
  - symmetry. apply filter_all. auto.
Qed.

(** X7. Filtering what the filter kept changes nothing, and the filter
    never returns more outages than it was given. *)
Theorem filter_idempotent refnum ℓ outages :
  Forall textual outages →
  ∃ kept,
    filterOutages refnum ℓ outages = Normal kept
    ∧ filterOutages refnum ℓ kept = Normal kept
    ∧ length kept ≤ length outages
    ∧ Forall textual kept.
Proof.
  intros Ht. eexists. split; [by apply filterOutages_both|].
  assert (Forall textual
            (filter (λ o, loc_pass ℓ o ∧ ref_pass refnum o) outages)) as Hk
    by by apply Forall_textual_filter.
  split; [|split; [apply length_filter | done]].
  rewrite filterOutages_both by done. f_equal.
  rewrite list_filter_filter. apply list_filter_iff. tauto.
Qed.

Lemma array_map_Normal {A B} (f : A → completion B) l :
  Forall (λ a, ∃ b, f a = Normal b) l →
  ∃ bs, array_map f l = Normal bs ∧ Forall2 (λ a b, f a = Normal b) l bs.
Proof.
  induction 1 as [|a l [b Hb] _ (bs & IH & H2)].
  - exists []. by split; [|constructor].
  - exists (b :: bs). simpl. rewrite Hb, IH. split; [done|]. by constructor.
Qed.

Lemma js_or_null_twice v : js_or (js_or v JNull) JNull = js_or v JNull.
Proof. unfold js_or. by destruct (truthy v) eqn:E; [rewrite E|]. Qed.

Lemma array_map_first_Throw {A B} (f : A → completion B) msg good bad rest :
  Forall (λ a, ∃ b, f a = Normal b) good →
  f bad = Throw msg →
  array_map f (good ++ bad :: rest) = Throw msg.
Proof.
  intros Hg Hb. induction Hg as [|a l [b Ha] _ IH]; simpl.
  - by rewrite Hb.
  - by rewrite Ha, IH.
Qed.

Lemma array_map_elements {B} (g : raw → completion B) (fts : list feature) :
  array_map (λ e, props <- element_props e ;; g props) (Some <$> fts)
  = array_map (λ ft, g (feature_props ft)) fts.
Proof.
  induction fts as [|ft fts IH]; [done|].
  rewrite fmap_cons. cbn [array_map]. by rewrite IH.
Qed.

Section Route.

Variable Date_parse : string → option Z.
Variable toLocaleString : Z → string.
Variable axios_get :
  string → params → completion (option (list (option feature))).

Lemma handler_rejects_refnum req :
  ¬ textual_param (q_refnum req) →
  handler Date_parse toLocaleString axios_get req =
  ([], Throw ("(req.query.refnum || " +:+ QQ
              +:+ ").trim is not a function")).
Proof.
  intros Hr. unfold handler, query_refnum.
  by rewrite (trimmed_other _ _ Hr).
Qed.

Lemma handler_rejects_location req :
  textual_param (q_refnum req) → ¬ textual_param (q_location req) →
  handler Date_parse toLocaleString axios_get req =
  ([], Throw ("(req.query.location || " +:+ QQ
              +:+ ").trim is not a function")).
Proof.
  intros Hr Hl. unfold handler, query_refnum, query_location.
  by rewrite (trimmed_textual _ _ Hr), (trimmed_other _ _ Hl).
Qed.

Lemma handler_missing_county req :
  textual_param (q_refnum req) → textual_param (q_location req) →
  param_truthy (q_county req) = false →
  handler Date_parse toLocaleString axios_get req =
  ([], Normal {|
         status_code := 400;
         json := ErrorBody "Missing required parameter: county" None
       |}).
Proof.
  intros Hr Hl Hc. unfold handler, query_refnum, query_location.
  rewrite (trimmed_textual _ _ Hr), (trimmed_textual _ _ Hl). simpl.
  by rewrite Hc.
Qed.

Lemma handler_unfold req :
  textual_param (q_refnum req) → textual_param (q_location req) →
  param_truthy (q_county req) = true →
  handler Date_parse toLocaleString axios_get req =
  match param_text (q_county req) with
  | Throw message => ([], Throw message)
  | Normal c =>
    match
      (data <- axios_get BASE_URL (query_for c) ;;
       outages <- array_map
                    (λ e, props <- element_props e ;;
                          normalizeOutage Date_parse toLocaleString props)
                    (default [] data) ;;
       outages <- filterOutages (refnum_of req) (location_of req)
                    outages ;;
       Normal {| status_code := 200;
                 json := OutagesBody (q_county req) (refnum_of req)
                           (js_or (JStr (location_of req)) JNull)
                           (length outages) outages |})
    with
    | Normal res => ([AxiosGet BASE_URL (query_for c)], Normal res)
    | Throw message =>
        ([AxiosGet BASE_URL (query_for c);
          ConsoleError ["Error fetching outages:"; message]],
         Normal {|
           status_code := 500;
           json := ErrorBody "Failed to fetch outage data" (Some message)
         |})
    end
  end.
Proof.
  intros Hr Hl Hc. unfold handler, query_refnum, query_location.
  rewrite (trimmed_textual _ _ Hr), (trimmed_textual _ _ Hl). simpl.
  rewrite Hc. simpl. unfold refnum_of. by rewrite js_or_null_twice.
Qed.

Lemma handler_unfold_string req c :
  q_county req = Some (QStr c) → c ≠ "" →
  textual_param (q_refnum req) → textual_param (q_location req) →
  handler Date_parse toLocaleString axios_get req =
  match
    (data <- axios_get BASE_URL (query_for c) ;;
     outages <- array_map
                  (λ e, props <- element_props e ;;
                        normalizeOutage Date_parse toLocaleString props)
                  (default [] data) ;;
     outages <- filterOutages (refnum_of req) (location_of req) outages ;;
     Normal {| status_code := 200;
               json := OutagesBody (Some (QStr c)) (refnum_of req)
                         (js_or (JStr (location_of req)) JNull)
                         (length outages) outages |})
  with
  | Normal res => ([AxiosGet BASE_URL (query_for c)], Normal res)
  | Throw message =>
      ([AxiosGet BASE_URL (query_for c);
        ConsoleError ["Error fetching outages:"; message]],
       Normal {|
         status_code := 500;
         json := ErrorBody "Failed to fetch outage data" (Some message)
       |})
  end.
Proof.
  intros Hc Hne Hr Hl. rewrite handler_unfold; try done.
  - by rewrite Hc.
  - rewrite Hc. by destruct c.
Qed.

(** X8. When the upstream request fails, the handler answers 500 with
    the fixed error text and the message of the failure as details,
    after one upstream request and one log line. *)
Theorem upstream_failure_is_500 req c message :
  q_county req = Some (QStr c) → c ≠ "" →
  textual_param (q_refnum req) → textual_param (q_location req) →
  axios_get BASE_URL (query_for c) = Throw message →
  handler Date_parse toLocaleString axios_get req =
  ([AxiosGet BASE_URL (query_for c);
    ConsoleError ["Error fetching outages:"; message]],
   Normal {|
     status_code := 500;
     json := ErrorBody "Failed to fetch outage data" (Some message)
   |}).
Proof.
  intros Hc Hne Hr Hl Hx. by rewrite (handler_unfold_string req c), Hx.
Qed.

Lemma element_error_None e :
  element_error e = None →
  ∃ o, (props <- element_props e ;;
        normalizeOutage Date_parse toLocaleString props) = Normal o.
Proof.
  destruct e as [ft|]; [|done]. simpl.
  destruct (texty _) eqn:Ht; [|done]. intros _.
  by apply normalizeOutage_returns.
Qed.

Lemma element_error_Some e message :
  element_error e = Some message →
  (props <- element_props e ;;
   normalizeOutage Date_parse toLocaleString props) = Throw message.
Proof.
  destruct e as [ft|]; simpl; [|by intros [= <-]].
  destruct (texty _) eqn:Ht; [done|]. intros [= <-].
  by apply normalizeOutage_throws.
Qed.

(** X9. The first element of the upstream reply that is null, or whose
    description is a truthy value other than a string, turns the whole
    reply into a 500 with the message of that element as details,
    whatever follows it and whatever the filters are. *)
Theorem one_bad_record_fails_reply req c data good bad rest message :
  q_county req = Some (QStr c) → c ≠ "" →
  textual_param (q_refnum req) → textual_param (q_location req) →
  axios_get BASE_URL (query_for c) = Normal data →
  default [] data = good ++ bad :: rest →
  Forall (λ e, element_error e = None) good →
  element_error bad = Some message →
  (message = "Cannot read properties of null (reading 'properties')"
   ∨ message = "html.replace is not a function")
  ∧ handler Date_parse toLocaleString axios_get req =
    ([AxiosGet BASE_URL (query_for c);
      ConsoleError ["Error fetching outages:"; message]],
     Normal {|
       status_code := 500;
       json := ErrorBody "Failed to fetch outage data" (Some message)
     |}).
Proof.
  intros Hc Hne Hr Hl Hx Hd Hg Hb. split.
  { destruct bad as [ft|]; simpl in Hb; [|left; congruence].
    destruct (texty _); [done|]. right. congruence. }
  rewrite (handler_unfold_string req c), Hx by done. simpl. rewrite Hd.
  rewrite (array_map_first_Throw _ message); [done| |].
  - eapply Forall_impl; [exact Hg|]. intros e. apply element_error_None.
  - by apply element_error_Some.
Qed.

(** X10. Every request ends in one of four ways.  The handler throws
    before it has done anything, and sends no reply, exactly when the
    reference or the location parameter is an array or an object, or
    when the county is one that cannot be turned into text.  Otherwise
    it answers 400 without any effect when the county is missing or
    empty; or 200 after exactly one upstream request, which depends on
    the county alone, with the county, the parsed filters, the kept
    outages and their number; or 500 after that one request and one log
    line. *)
Theorem handler_outcomes req :
  ((¬ textual_param (q_refnum req) ∨ ¬ textual_param (q_location req)
     ∨ (param_truthy (q_county req) = true
        ∧ ∃ message, param_text (q_county req) = Throw message))
   ∧ ∃ message,
       handler Date_parse toLocaleString axios_get req = ([], Throw message))
  ∨ (textual_param (q_refnum req) ∧ textual_param (q_location req)
     ∧ ((q_county req = None ∨ q_county req = Some (QStr ""))
        ∧ handler Date_parse toLocaleString axios_get req =
          ([], Normal {|
                 status_code := 400;
                 json := ErrorBody "Missing required parameter: county"
                           None
               |})
        ∨ ∃ c, param_truthy (q_county req) = true
            ∧ param_text (q_county req) = Normal c
            ∧ ((∃ outs,
                  handler Date_parse toLocaleString axios_get req =
                  ([AxiosGet BASE_URL (query_for c)],
                   Normal {|
                     status_code := 200;
                     json := OutagesBody (q_county req) (refnum_of req)
                               (js_or (JStr (location_of req)) JNull)
                               (length outs) outs
                   |}))
               ∨ ∃ message,
                   handler Date_parse toLocaleString axios_get req =
                   ([AxiosGet BASE_URL (query_for c);
                     ConsoleError ["Error fetching outages:"; message]],
                    Normal {|
                      status_code := 500;
                      json := ErrorBody "Failed to fetch outage data"
                                (Some message)
                    |})))).
Proof.
  destruct (textual_param_dec (q_refnum req)) as [Tr|Tr];
    [|left; split; [by left|]; eexists; by apply handler_rejects_refnum].
  destruct (textual_param_dec (q_location req)) as [Tl|Tl];
    [|left; split; [right; by left|]; eexists;
      by apply handler_rejects_location].
  destruct (param_truthy (q_county req)) eqn:Hc.
  - pose proof (handler_unfold req Tr Tl Hc) as H.
    destruct (param_text (q_county req)) as [c|e] eqn:Ht.
    + right. split; [done|]. split; [done|]. right. exists c.
      split; [done|]. split; [done|]. rewrite H.
      destruct (axios_get _ _) as [data|e]; simpl; [|right; by exists e].
      destruct (array_map _ _) as [os|e]; simpl; [|right; by exists e].
      destruct (filterOutages _ _ _) as [kept|e]; simpl;
        [|right; by exists e].
      left. by exists kept.
    + left. split; [|by exists e]. right. right. split; [done|]. by exists e.
  - right. split; [done|]. split; [done|]. left.
    split; [|by apply handler_missing_county].
    destruct (q_county req) as [[[|a c]|t]|]; auto; done.
Qed.

(** X11. When the upstream reply can be read, the outages of the 200
    reply are the normalised features, in upstream order, that pass both
    filters.  Without filters all of them are returned, and a reply
    without features gives an empty list. *)
Theorem handler_success req c data fts :
  q_county req = Some (QStr c) → c ≠ "" →
  textual_param (q_refnum req) → textual_param (q_location req) →
  axios_get BASE_URL (query_for c) = Normal data →
  default [] data = Some <$> fts →
  Forall (λ ft, texty (get (feature_props ft) "DESCRIPTION") = true) fts →
  location_of req = ""
  ∨ Forall (λ ft, texty (get (feature_props ft) "LOCATION") = true) fts →
  ∃ normalised kept,
    Forall2 (λ ft o, normalizeOutage Date_parse toLocaleString
                       (feature_props ft) = Normal o)
      fts normalised
    ∧ kept = filter (λ o, loc_pass (location_of req) o
                          ∧ ref_pass (refnum_of req) o) normalised
    ∧ handler Date_parse toLocaleString axios_get req =
      ([AxiosGet BASE_URL (query_for c)],
       Normal {|
         status_code := 200;
         json := OutagesBody (Some (QStr c)) (refnum_of req)
                   (js_or (JStr (location_of req)) JNull)
                   (length kept) kept
       |})
    ∧ length kept ≤ length fts
    ∧ (q_refnum req = None → q_location req = None →
         kept = normalised ∧ length kept = length fts)
    ∧ (data = None → kept = []).
Proof.
  intros Hc Hne Hr Hq Hx Hf Hd Hl.
  destruct (array_map_Normal
              (λ ft, normalizeOutage Date_parse toLocaleString
                       (feature_props ft)) fts)
    as (normalised & Hmap & H2).
  { eapply Forall_impl; [exact Hd|]. intros ft.
    apply normalizeOutage_returns. }
  assert (location_of req = "" ∨ Forall textual normalised) as Ht.
  { destruct Hl as [Hl | Hl]; [by left | right].
    clear Hmap Hf. induction H2 as [|ft o fts' os Ho _ IH]; [constructor|].
    inversion Hl; subst. inversion Hd; subst.
    constructor; [|by apply IH].
    by eapply normalizeOutage_textual. }
  eexists normalised, _. split; [exact H2|]. split; [reflexivity|].
  split; [|split; [|split]].
  - rewrite (handler_unfold_string req c), Hx by done. simpl.
    rewrite Hf, array_map_elements, Hmap. simpl.
    by rewrite filterOutages_any.
  - rewrite (Forall2_length _ _ _ H2). apply length_filter.
  - intros Hr' Hq'. unfold refnum_of, location_of. rewrite Hr', Hq'.
    simpl. rewrite filter_all.
    + split; [done|]. symmetry. by eapply Forall2_length.
    + intros o. split; by left.
  - intros ->. simpl in Hf. destruct fts; [|done]. by inversion H2.
Qed.

End Route.

(** ** The stripped description is never longer *)

Lemma replace_rest_shorter r repl n :
  (∀ prev s y, exec r (prev, s) = Some y →
     String.length repl + String.length y.2 ≤ String.length s) →
  ∀ prev s, String.length s < n →
    String.length (replace_rest r repl prev s) ≤ String.length s.
Proof.
  intros Hr. induction n as [|n IH]; intros prev s Hn; [lia|].
  rewrite replace_rest_eq. cbn zeta.
  assert (String.length
            match s with
            | String c s' => String c (replace_rest r repl (Some c) s')
            | "" => ""
            end ≤ String.length s) as Hskip.
  { destruct s as [|c s']; [done|]. simpl in *.
    specialize (IH (Some c) s'). lia. }
  destruct (exec r (prev, s)) as [[p' rest]|] eqn:E; [|done].
  apply Hr in E. simpl in E.
  destruct (Nat.ltb_spec (String.length rest) (String.length s)).
  - rewrite length_app_str. specialize (IH p' rest). lia.
  - rewrite length_app_str. lia.
Qed.

Lemma replace_all_shorter r repl s :
  (∀ prev s y, exec r (prev, s) = Some y →
     String.length repl + String.length y.2 ≤ String.length s) →
  String.length (replace_all r repl s) ≤ String.length s.
Proof.
  intros Hr. rewrite replace_all_rest.
  apply (replace_rest_shorter r repl (S (String.length s))); [done|lia].
Qed.

Lemma trim_shorter s : String.length (trim s) ≤ String.length s.
Proof.
  destruct (trim_spec s) as (a & b & E & _).
  rewrite E at 2. rewrite !length_app_str. lia.
Qed.

Lemma join_lf_length l ls :
  String.length (join_lf (l :: ls))
  = String.length l
    + match ls with [] => 0 | _ => S (String.length (join_lf ls)) end.
Proof.
  destruct ls as [|l' ls]; [simpl; lia|].
  rewrite join_lf_cons, !length_app_str. simpl. lia.
Qed.

Lemma stripped_lines_shorter ls :
  String.length (join_lf (filter (λ l, l ≠ "") (trim <$> ls)))
  ≤ String.length (join_lf ls).
Proof.
  induction ls as [|l ls IH]; [done|].
  rewrite fmap_cons, filter_cons, (join_lf_length l ls).
  pose proof (trim_shorter l) as Hl.
  destruct (decide (trim l ≠ "")) as [Hne|He].
  - rewrite join_lf_length.
    destruct (filter _ (trim <$> ls)) as [|k ks] eqn:Ek; [lia|].
    destruct ls as [|l' ls]; [done|]. lia.
  - destruct ls as [|l' ls]; [simpl; lia|]. lia.
Qed.

(** X12. The stripped description is never longer than the description
    it was made from. *)
Theorem stripHtml_never_longer h :
  ∃ out, stripHtml (JStr h) = Normal out
         ∧ String.length out ≤ String.length h.
Proof.
  eexists. split; [apply stripHtml_string|].
  etrans; [apply stripped_lines_shorter|]. rewrite join_split.
  etrans; [apply replace_all_shorter|].
  { intros prev s y E. apply exec_later in E. simpl in *. lia. }
  etrans; [apply replace_all_shorter|].
  { intros prev s y E. apply opens_div in E as [_ ?]. simpl. lia. }
  apply replace_all_shorter.
  intros prev s y E. apply opens_br in E as [_ ?]. simpl. lia.
Qed.

(** * The service on concrete inputs *)

(** C1, counterexample.  The description holds three capitals and eight
    digits, which the pattern of the specification finds; a letter stands
    right before them, and the reference comes out null. *)
Lemma reference_needs_word_boundary :
  ∃ o,
    normalizeOutage example_Date_parse example_toLocaleString
      {["DESCRIPTION" := JStr "XABC12345678"]} = Normal o
    ∧ description o = JStr "XABC12345678"
    ∧ reference o = JNull
    ∧ spec_reference JUndefined "XABC12345678" = JStr "ABC12345678".
Proof. eexists. split; [vm_compute; reflexivity|]. by vm_compute. Qed.

Lemma reference_derivation_witness :
  ∃ o d,
    normalizeOutage example_Date_parse example_toLocaleString
      {["DESCRIPTION" := JStr "<b>Notice</b> ref: MAY00102991<br>ABC123"]}
    = Normal o
    ∧ description o = JStr d
    ∧ reference o = JStr "MAY00102991"
    ∧ first_reference d "MAY00102991".
Proof.
  destruct (reference_derivation example_Date_parse example_toLocaleString
              {["DESCRIPTION" := JStr "<b>Notice</b> ref: MAY00102991<br>ABC123"]})
    as (o & d & Hn & Hd & _ & Hder); [vm_compute; reflexivity|].
  assert (description o = JStr d ∧ reference o = JStr "MAY00102991")
    as [Hdesc Href].
  { vm_compute in Hn. injection Hn as <-.
    vm_compute in Hd. injection Hd as <-. split; reflexivity. }
  exists o, d. split; [exact Hn|]. split; [exact Hdesc|].
  split; [exact Href|]. apply Hder; [vm_compute; reflexivity|exact Href].
Defined.

Lemma zero_epoch_field_is_null_witness :
  ∃ o,
    normalizeOutage example_Date_parse example_toLocaleString
      {["STARTDATE" := JNum 0]} = Normal o
    ∧ startdate_epoch o = JNull
    ∧ startdate_human o = JStr (example_toLocaleString 0).
Proof.
  destruct (normalizeOutage example_Date_parse example_toLocaleString
              {["STARTDATE" := JNum 0]}) as [o|e] eqn:E;
    [|vm_compute in E; discriminate E].
  exists o. split; [reflexivity|].
  apply (zero_epoch_field_is_null _ _ _ o E). vm_compute; reflexivity.
Defined.

(** C3, counterexample.  With every optional field missing the global
    identifier is undefined, not the empty string. *)
Lemma missing_globalid_is_undefined :
  ∃ o,
    normalizeOutage example_Date_parse example_toLocaleString ∅ = Normal o
    ∧ globalid o = JUndefined
    ∧ globalid o ≠ JStr "".
Proof. eexists. split; [vm_compute; reflexivity|]. by split. Qed.

Lemma missing_fields_defaults_witness :
  normalizeOutage example_Date_parse example_toLocaleString
    {["OBJECTID" := JNum 7]}
  = Normal {|
      objectid := JNum 7;
      globalid := JUndefined;
      title := JStr "";
      status := JStr "";
      location := JStr "";
      county := JStr "";
      startdate_epoch := JNull;
      enddate_epoch := JNull;
      startdate_human := JNull;
      enddate_human := JNull;
      reference := JNull;
      description := JStr ""
    |}.
Proof.
  rewrite (missing_fields_defaults example_Date_parse example_toLocaleString
             {["OBJECTID" := JNum 7]}); [|repeat constructor].
  vm_compute; reflexivity.
Defined.



(** C5, counterexample.  A description that is a number makes
    [normalizeOutage] throw. *)
Lemma non_text_description_throws :
  normalizeOutage example_Date_parse example_toLocaleString
    {["DESCRIPTION" := JNum 5]}
  = Throw "html.replace is not a function".
Proof. vm_compute; reflexivity. Qed.

Lemma normalize_total_on_text_witness :
  ∃ o,
    normalizeOutage example_Date_parse example_toLocaleString
      {["DESCRIPTION" := JNull]} = Normal o
    ∧ ∃ d, description o = JStr d.
Proof.
  apply (normalize_total_on_text example_Date_parse example_toLocaleString
           {["DESCRIPTION" := JNull]}).
  vm_compute; reflexivity.
Defined.

Lemma example_outages_textual : Forall textual example_outages.
Proof. repeat constructor. Qed.

Lemma refnum_filter_exact_witness :
  ∃ kept,
    (refnum <- query_refnum {| q_county := Some (QStr "Mayo");
                               q_refnum := Some (QStr "  MAY00103000 ");
                               q_location := None |} ;;
     filterOutages refnum "" example_outages) = Normal kept
    ∧ objectid <$> kept = [JNum 102].
Proof.
  destruct (refnum_filter_exact
              {| q_county := Some (QStr "Mayo");
                 q_refnum := Some (QStr "  MAY00103000 ");
                 q_location := None |}
              "  MAY00103000 " "" example_outages eq_refl)
    as (_ & _ & _ & H).
  eexists. split; [exact H|]. vm_compute; reflexivity.
Defined.

Lemma location_filter_exact_witness :
  ∃ kept,
    (ℓ <- query_location {| q_county := Some (QStr "Mayo");
                            q_refnum := None;
                            q_location := Some (QStr " BALLINA ") |} ;;
     filterOutages JNull ℓ example_outages) = Normal kept
    ∧ objectid <$> kept = [JNum 101; JNum 102].
Proof.
  destruct (location_filter_exact
              {| q_county := Some (QStr "Mayo"); q_refnum := None;
                 q_location := Some (QStr " BALLINA ") |}
              " BALLINA " example_outages eq_refl example_outages_textual)
    as (_ & _ & _ & _ & _ & H).
  eexists. split; [exact H|]. vm_compute; reflexivity.
Defined.

Lemma filter_identity_and_composition_witness :
  (refnum <- query_refnum {| q_county := Some (QStr "Mayo");
                             q_refnum := None; q_location := None |} ;;
   locationFilter <- query_location {| q_county := Some (QStr "Mayo");
                                       q_refnum := None;
                                       q_location := None |} ;;
   filterOutages refnum locationFilter example_outages)
  = Normal example_outages
  ∧ ∃ kept,
      filterOutages (JStr "MAY00102991") "ballina" example_outages
      = Normal kept
      ∧ kept `sublist_of` example_outages
      ∧ objectid <$> kept = [JNum 101].
Proof.
  destruct (filter_identity_and_composition example_outages) as [Hid Hand].
  split; [by apply Hid|].
  destruct (Hand (JStr "MAY00102991") "ballina" example_outages_textual)
    as (kept & Hk & Hf & Hs).
  exists kept. split; [exact Hk|]. split; [exact Hs|].
  rewrite Hf. vm_compute; reflexivity.
Defined.



Lemma reply_echoes_location_and_count_witness :
  match (handler example_Date_parse example_toLocaleString
           example_axios_get
           {| q_county := Some (QStr "Mayo"); q_refnum := None;
              q_location := Some (QStr "  BALLINA ") |}).2 with
  | Normal {| json := OutagesBody _ _ lf n outs |} =>
      lf = JStr "ballina" ∧ n = length outs ∧ n = 2
  | _ => False
  end.
Proof.
  destruct (handler example_Date_parse example_toLocaleString
              example_axios_get
              {| q_county := Some (QStr "Mayo"); q_refnum := None;
                 q_location := Some (QStr "  BALLINA ") |})
    as [effects [[code [e d|c r lf n outs]]|e]] eqn:E; simpl.
  - vm_compute in E. discriminate E.
  - destruct (reply_echoes_location_and_count _ _ _
                {| q_county := Some (QStr "Mayo"); q_refnum := None;
                   q_location := Some (QStr "  BALLINA ") |}
                "  BALLINA " _ _ _ _ _ _ _ eq_refl
                ltac:(vm_compute; discriminate) E)
      as (_ & Hlf & Hn).
    split; [exact Hlf|]. split; [exact Hn|].
    vm_compute in E. by injection E as _ _ _ _ _ <- _.
  - vm_compute in E. discriminate E.
Defined.

(** ** The further properties on concrete inputs *)

Lemma rendered_without_epoch_only_zero_witness :
  ∃ o,
    normalizeOutage example_Date_parse example_toLocaleString
      {["STARTDATE" := JNum 0]} = Normal o
    ∧ startdate_human o = JStr "1/1/1970, 01:00:00"
    ∧ startdate_epoch o = JNull
    ∧ get {["STARTDATE" := JNum 0]} "STARTDATE" = JNum 0.
Proof.
  destruct (normalizeOutage example_Date_parse example_toLocaleString
              {["STARTDATE" := JNum 0]}) as [o|e] eqn:E;
    [|vm_compute in E; discriminate E].
  assert (startdate_human o = JStr "1/1/1970, 01:00:00"
          ∧ startdate_epoch o = JNull) as [Hh He].
  { vm_compute in E. injection E as <-. by split. }
  exists o. split; [reflexivity|]. split; [exact Hh|]. split; [exact He|].
  apply (rendered_without_epoch_only_zero _ _ _ o E); [|exact He].
  rewrite Hh. discriminate.
Defined.

Lemma stripHtml_plain_text_witness :
  stripHtml (JStr "Boil water notice") = Normal "Boil water notice".
Proof.
  apply (stripHtml_plain_text "Boil water notice");
    [vm_compute; reflexivity|].
  repeat split; [discriminate | vm_compute; reflexivity..].
Defined.

Lemma normalized_fields_defined_witness :
  ∃ o,
    normalizeOutage example_Date_parse example_toLocaleString
      {["TITLE" := JNum 0]} = Normal o
    ∧ title o = JStr ""
    ∧ Forall (λ v, v = JStr "" ∨ truthy v = true)
        [title o; status o; location o; county o].
Proof.
  destruct (normalizeOutage example_Date_parse example_toLocaleString
              {["TITLE" := JNum 0]}) as [o|e] eqn:E;
    [|vm_compute in E; discriminate E].
  exists o. split; [reflexivity|]. split.
  - vm_compute in E. by injection E as <-.
  - apply (normalized_fields_defined _ _ _ o E).
Defined.

Lemma filter_idempotent_witness :
  ∃ kept,
    filterOutages JNull "ballina" example_outages = Normal kept
    ∧ filterOutages JNull "ballina" kept = Normal kept
    ∧ length kept ≤ 3.
Proof.
  destruct (filter_idempotent JNull "ballina" example_outages
              example_outages_textual) as (kept & H1 & H2 & H3 & _).
  exists kept. split; [exact H1|]. split; [exact H2|]. exact H3.
Defined.

Lemma upstream_failure_is_500_witness :
  handler example_Date_parse example_toLocaleString
    (λ _ _, Throw "Network Error")
    {| q_county := Some (QStr "Mayo"); q_refnum := None;
       q_location := None |}
  = ([AxiosGet BASE_URL (query_for "Mayo");
      ConsoleError ["Error fetching outages:"; "Network Error"]],
     Normal {|
       status_code := 500;
       json := ErrorBody "Failed to fetch outage data"
                 (Some "Network Error")
     |}).
Proof.
  apply (upstream_failure_is_500 example_Date_parse example_toLocaleString
           (λ _ _, Throw "Network Error") _ "Mayo" "Network Error");
    [reflexivity | discriminate | exact I | exact I | reflexivity].
Defined.

Lemma one_bad_record_fails_reply_witness :
  handler example_Date_parse example_toLocaleString
    (λ _ _, Normal (Some
       ((Some <$> example_features)
        ++ None
        :: [Some {| properties := Some {["DESCRIPTION" := JBool true]};
                    attributes := None |}])))
    {| q_county := Some (QStr "Mayo"); q_refnum := None;
       q_location := None |}
  = ([AxiosGet BASE_URL (query_for "Mayo");
      ConsoleError
        ["Error fetching outages:";
         "Cannot read properties of null (reading 'properties')"]],
     Normal {|
       status_code := 500;
       json := ErrorBody "Failed to fetch outage data"
                 (Some "Cannot read properties of null (reading 'properties')")
     |}).
Proof.
  apply (one_bad_record_fails_reply example_Date_parse
           example_toLocaleString _ _ "Mayo"
           (Some ((Some <$> example_features)
                  ++ None
                  :: [Some {| properties :=
                                Some {["DESCRIPTION" := JBool true]};
                              attributes := None |}]))
           (Some <$> example_features) None
           [Some {| properties := Some {["DESCRIPTION" := JBool true]};
                    attributes := None |}]);
    [reflexivity | discriminate | exact I | exact I | reflexivity
    | reflexivity | | reflexivity].
  repeat (apply Forall_cons_2 || apply Forall_nil_2);
    vm_compute; reflexivity.
Defined.

Lemma handler_success_witness :
  ∃ kept,
    handler example_Date_parse example_toLocaleString example_axios_get
      {| q_county := Some (QStr "Mayo"); q_refnum := None;
         q_location := Some (QStr "Ballina") |}
    = ([AxiosGet BASE_URL (query_for "Mayo")],
       Normal {|
         status_code := 200;
         json := OutagesBody (Some (QStr "Mayo")) JNull (JStr "ballina")
                   (length kept) kept
       |})
    ∧ length kept ≤ 3.
Proof.
  destruct (handler_success example_Date_parse example_toLocaleString
              example_axios_get
              {| q_county := Some (QStr "Mayo"); q_refnum := None;
                 q_location := Some (QStr "Ballina") |}
              "Mayo" (Some (Some <$> example_features)) example_features
              eq_refl ltac:(discriminate) I I eq_refl eq_refl)
    as (normalised & kept & _ & _ & H & Hlen & _).
  - repeat (apply Forall_cons_2 || apply Forall_nil_2);
      vm_compute; reflexivity.
  - right. repeat (apply Forall_cons_2 || apply Forall_nil_2);
      vm_compute; reflexivity.
  - exists kept. split; [exact H | exact Hlen].
Defined.
